(** * Video-Audio-Alignment-Toolkit: the alignment pipeline, embedded and verified

    The development follows the Python sources of [video_audio_align]:
    - [align.py]    : [transcribe_audio], [align_frames_to_transcript], [process_video];
    - [to_srt.py]   : [_format_timestamp], [alignment_to_srt];
    - [extract_audio.py], [extract_frames.py] : the ffmpeg wrappers.

    Conventions of the embedding.
    - A Python [float] is an IEEE-754 binary64 number, that is a primitive
      [float] of Rocq; products are the rounded products, and [int] and
      [round] are defined on the [SpecFloat] view [Prim2SF] of a float.
    - A Python [int] is a [Z].
    - A Python [str] is a [string], one character per code point; texts
      with code points from 256 on are outside the model.
    - An exception is a value of [exn], and code that raises returns
      [inl e]; code with effects is a function from [world] to [world] and
      result (the monad [M]), so that what was written before an exception
      stays written.
    - The file system is a finite map from paths to files and directories.
      Permissions, links and concurrent writers are not modelled.  A file
      written by [json.dump] holds the value dumped.
    - ffmpeg, ffprobe and whisper are parameters, [tools]: functions of the
      file they are run on, which return a result or raise.  A call of
      ffmpeg or ffprobe raises [ffmpeg.Error], which the wrappers catch, or
      any other exception, which they do not (a missing executable is a
      [FileNotFoundError]); whisper raises whatever it raises.  Calls and
      warnings are recorded in the [trace].

    The programs come first, then the vocabulary of the statements, then
    the lemmas, and last the statements C1 to C10 themselves. *)

From Stdlib Require Import ZArith QArith Qround Qabs Lia List Bool Ascii String Floats.
From Stdlib Require Import DecimalString DecimalN DecimalPos.
From stdpp Require Import base option list sorting gmap strings.

#[local] Open Scope Z_scope.
#[local] Set Warnings "-inexact-float".

(** ** Exceptions *)

Inductive exn : Set :=
| ValueError          (* int(nan), round(nan) *)
| OverflowError       (* int(inf), round(inf) *)
| FileNotFoundError
| FileExistsError
| NotADirectoryError
| IsADirectoryError
| JSONDecodeError
| TypeError
| RuntimeError        (* the wrappers' translation of ffmpeg.Error *)
| ModelError.         (* whisper, run on a file that is not there *)

Definition result (A : Type) : Type := exn + A.

(** ** Python numbers *)

Module Py.

(** The exact value of a binary64 number; NaN and the infinities have no
    value and are mapped to [0]. *)
Definition SF2Q (x : spec_float) : Q :=
  match x with
  | S754_finite s m e =>
      match e with
      | Zneg p => Qmake (cond_Zopp s (Zpos m)) (2 ^ p)%positive
      | _ => inject_Z (cond_Zopp s (Zpos m) * 2 ^ e)
      end
  | _ => 0%Q
  end.

Definition value (x : float) : Q := SF2Q (Prim2SF x).

Definition SFis_finite (x : spec_float) : bool :=
  match x with
  | S754_zero _ | S754_finite _ _ _ => true
  | _ => false
  end.

Definition is_finite (x : float) : bool := SFis_finite (Prim2SF x).

(** [int(x)] on a float: truncation toward zero; [ValueError] on NaN and
    [OverflowError] on an infinity. *)
Definition SFtrunc (x : spec_float) : result Z :=
  match x with
  | S754_nan => inl ValueError
  | S754_infinity _ => inl OverflowError
  | S754_zero _ => inr 0
  | S754_finite s m e => inr (cond_Zopp s (Z.shiftl (Zpos m) e))
  end.

Definition int (x : float) : result Z := SFtrunc (Prim2SF x).

(** Rounding of [m / 2^n] to the nearest integer, ties to even. *)
Definition rne (m n : Z) : Z :=
  let q := m / 2 ^ n in
  let r := m mod 2 ^ n in
  match 2 * r ?= 2 ^ n with
  | Lt => q
  | Gt => q + 1
  | Eq => if Z.even q then q else q + 1
  end.

(** [round(x)] with one argument: the nearest integer, ties to even, as
    an [int]; same exceptions as [int(x)]. *)
Definition SFround (x : spec_float) : result Z :=
  match x with
  | S754_nan => inl ValueError
  | S754_infinity _ => inl OverflowError
  | S754_zero _ => inr 0
  | S754_finite s m e =>
      inr (cond_Zopp s
             match e with
             | Zneg p => rne (Zpos m) (Zpos p)
             | _ => Zpos m * 2 ^ e
             end)
  end.

Definition round (x : float) : result Z := SFround (Prim2SF x).

End Py.

(** ** align.py: the data model *)

Module Segment.
Record t : Set := mk
  { text : string;
    start_time : float;
    end_time : float }.
End Segment.

Module AlignmentEntry.
Record t : Set := mk
  { text : string;
    start_time : float;
    end_time : float;
    start_frame : Z;
    end_frame : Z;
    video_fps : float }.
End AlignmentEntry.

Definition bind_result {A B : Type} (r : result A) (k : A -> result B) : result B :=
  match r with
  | inl e => inl e
  | inr a => k a
  end.

(** ** align.py: [align_frames_to_transcript] *)

(** One iteration of the loop body: the entry appended for [segment].
    The times of a segment are floats, on which [float(...)] is the
    identity. *)
Definition align_segment (video_fps extraction_fps : float) (segment : Segment.t)
  : result AlignmentEntry.t :=
  let start_time := Segment.start_time segment in
  let end_time := Segment.end_time segment in
  bind_result (Py.int (start_time * extraction_fps)%float) (fun i =>
  let start_frame := Z.max 0 i in
  bind_result (Py.int (end_time * extraction_fps)%float) (fun j =>
  let end_frame := Z.max start_frame j in
  inr (AlignmentEntry.mk (Segment.text segment) start_time end_time
         start_frame end_frame video_fps))).

(** The loop [for segment in segments: aligned.append(...)], with the
    accumulator [aligned] threaded through. *)
Fixpoint align_loop (video_fps extraction_fps : float)
    (segments : list Segment.t) (aligned : list AlignmentEntry.t)
  : result (list AlignmentEntry.t) :=
  match segments with
  | [] => inr aligned
  | segment :: rest =>
      bind_result (align_segment video_fps extraction_fps segment) (fun entry =>
      align_loop video_fps extraction_fps rest (aligned ++ [entry]))
  end.

Definition align_frames_to_transcript (segments : list Segment.t)
    (video_fps extraction_fps : float) : result (list AlignmentEntry.t) :=
  align_loop video_fps extraction_fps segments [].

(** ** Python strings and integer formatting *)

Module PyStr.

(** [str.isspace] on one character, for code points below 256. *)
Definition is_space (c : ascii) : bool :=
  let n := N_of_ascii c in
  ((9 <=? n) && (n <=? 13) || (28 <=? n) && (n <=? 32)
   || (n =? 133) || (n =? 160))%N.

Fixpoint lstrip (s : string) : string :=
  match s with
  | String c s' => if is_space c then lstrip s' else s
  | EmptyString => EmptyString
  end.

Fixpoint rstrip (s : string) : string :=
  match s with
  | String c s' =>
      match rstrip s' with
      | EmptyString => if is_space c then EmptyString else String c EmptyString
      | r => String c r
      end
  | EmptyString => EmptyString
  end.

(** [s.strip()] *)
Definition strip (s : string) : string := rstrip (lstrip s).

(** [x or y] on strings: the empty string is falsy. *)
Definition or_else (x y : string) : string :=
  match x with
  | EmptyString => y
  | _ => x
  end.

Definition newline : string := String (ascii_of_N 10) EmptyString.

(** [sep.join(parts)] *)
Definition join (sep : string) (parts : list string) : string :=
  String.concat sep parts.

(** The decimal digits of a natural number, without sign. *)
Definition digits (n : N) : string := NilZero.string_of_uint (N.to_uint n).

(** [str(n)] on an [int]. *)
Definition of_int (n : Z) : string :=
  if n <? 0 then "-" +:+ digits (Z.abs_N n) else digits (Z.to_N n).

Fixpoint zeros (k : nat) : string :=
  match k with
  | O => EmptyString
  | S k' => String "0" (zeros k')
  end.

Definition zfill (width : nat) (s : string) : string :=
  zeros (width - String.length s) +:+ s.

(** [f"{n:0<width>d}"]: sign first, then zeros up to [width] characters
    in all, then the digits. *)
Definition format_0d (width : nat) (n : Z) : string :=
  if n <? 0 then "-" +:+ zfill (width - 1) (digits (Z.abs_N n))
  else zfill width (digits (Z.to_N n)).

End PyStr.

(** ** to_srt.py: [_format_timestamp] *)

Definition _format_timestamp (seconds : float) : result string :=
  bind_result (Py.round (seconds * 1000)%float) (fun millis =>
  let '(hours, remainder) := (millis / 3600000, millis mod 3600000) in
  let '(minutes, remainder) := (remainder / 60000, remainder mod 60000) in
  let '(secs, millis) := (remainder / 1000, remainder mod 1000) in
  inr (PyStr.format_0d 2 hours +:+ ":" +:+ PyStr.format_0d 2 minutes +:+ ":"
       +:+ PyStr.format_0d 2 secs +:+ "," +:+ PyStr.format_0d 3 millis)).

(** ** to_srt.py: the rendering loop of [alignment_to_srt] *)

(** The four lines appended for the entry numbered [idx]. *)
Definition srt_block (idx : Z) (segment : AlignmentEntry.t) : result (list string) :=
  bind_result (_format_timestamp (AlignmentEntry.start_time segment)) (fun start_time =>
  bind_result (_format_timestamp (AlignmentEntry.end_time segment)) (fun end_time =>
  let text := PyStr.or_else (PyStr.strip (AlignmentEntry.text segment)) "[inaudible]" in
  inr [PyStr.of_int idx; start_time +:+ " --> " +:+ end_time; text; ""])).

(** [for idx, segment in enumerate(alignment, start=1): lines.extend(...)],
    with the counter and the accumulator [lines] threaded through. *)
Fixpoint srt_loop (idx : Z) (alignment : list AlignmentEntry.t) (lines : list string)
  : result (list string) :=
  match alignment with
  | [] => inr lines
  | segment :: rest =>
      bind_result (srt_block idx segment) (fun block =>
      srt_loop (idx + 1) rest (lines ++ block))
  end.

Definition srt_lines (alignment : list AlignmentEntry.t) : result (list string) :=
  srt_loop 1 alignment [].

(** The text handed to [write_text]. *)
Definition srt_text (alignment : list AlignmentEntry.t) : result string :=
  bind_result (srt_lines alignment) (fun lines => inr (PyStr.join PyStr.newline lines)).

(** ** The world: file system, external tools, warnings *)

(** A [pathlib.Path], by its components; [[]] is the current directory. *)
Definition path : Set := list string.

Definition parent (p : path) : path := removelast p.
Definition child (p : path) (name : string) : path := p ++ [name].

Module RunMetadata.
Record t : Set := mk
  { video_path : path;
    audio_path : path;
    frame_dir : path;
    frame_count : Z;
    video_fps : float;
    extraction_fps : float }.
End RunMetadata.

(** What a file holds.  The two JSON documents the pipeline writes are kept
    as the values [json.dump] serialises and [json.load] gives back; [Raw]
    is any other file, by its bytes. *)
Inductive content : Set :=
| Raw (data : string)
| AlignmentJson (record : list AlignmentEntry.t)
| MetadataJson (metadata : RunMetadata.t).

Inductive node : Set :=
| File (c : content)
| Dir.

(** One stream of [ffmpeg.probe(...)["streams"]]. *)
Record stream : Set := mk_stream
  { codec_type : option string;
    avg_frame_rate : option string;
    r_frame_rate : option string }.

(** One element of whisper's [result["segments"]]; an absent key is [None]. *)
Record raw_segment : Set := mk_raw
  { raw_text : option string;
    raw_start : option float;
    raw_end : option float }.

Inductive warning : Set :=
| NoAudioStream (video : path)      (* extract_audio *)
| NoAudioContent (video : path)     (* process_video *)
| EmptyAudioFile (audio : path).    (* transcribe_audio *)

(** Calls to the external tools and warnings, in the order they happen. *)
Inductive event : Set :=
| Probe (video : path)
| FfmpegAudio (video output : path) (sample_rate : Z)
| FfmpegFrames (video frame_dir : path) (fps : float)
| Whisper (audio : path) (model : string) (language : option string)
| Warn (w : warning).

Record world : Type := mk_world
  { files : gmap path node;
    trace : list event }.

(** How a call of an external tool ends.  [FfmpegError] is the exception
    [ffmpeg.Error] of ffmpeg-python, the only one the wrappers catch (they
    re-raise it as [RuntimeError]).  [Crashed e] is any other exception [e]
    raised by the call, for instance the [FileNotFoundError] of [subprocess]
    when the executable is not installed: no wrapper catches it, so it
    reaches the caller as it is. *)
Inductive outcome (A : Type) : Type :=
| Done (a : A)
| FfmpegError
| Crashed (e : exn).

Arguments Done {A} a.
Arguments FfmpegError {A}.
Arguments Crashed {A} e.

(** The external tools, as functions of the file they are run on.  A call
    of whisper returns its result or raises an exception of its own, which
    nothing catches. *)
Record tools : Type := mk_tools
  { ffprobe : node -> outcome (list stream);
    ffmpeg_audio : node -> Z -> outcome string;
    ffmpeg_frames : node -> float -> outcome (list string);
    whisper_transcribe : string -> option string -> node -> result (option (list raw_segment));
    (** the arithmetic of [get_video_fps] on the rate strings of a stream;
        [None] when they do not parse *)
    stream_rate : stream -> option float }.

(** *** Computations that read and change the world, and may raise *)

Definition M (A : Type) : Type := world -> world * result A.

Definition ret {A : Type} (a : A) : M A := fun w => (w, inr a).
Definition raise {A : Type} (e : exn) : M A := fun w => (w, inl e).
Definition bind {A B : Type} (m : M A) (k : A -> M B) : M B :=
  fun w =>
    match m w with
    | (w', inr a) => k a w'
    | (w', inl e) => (w', inl e)
    end.
Definition lift {A : Type} (r : result A) : M A := fun w => (w, r).

Notation "'let*' x ':=' m 'in' k" := (bind m (fun x => k))
  (at level 10, x pattern, m at level 100, k at level 200).
Notation "m ';;' k" := (bind m (fun _ => k))
  (at level 100, k at level 200, right associativity).

Definition log (e : event) : M unit :=
  fun w => (mk_world (files w) (trace w ++ [e]), inr tt).

Definition warn (x : warning) : M unit := log (Warn x).

(** *** pathlib *)

Definition lookup_node (w : world) (p : path) : option node :=
  match p with
  | [] => Some Dir
  | _ => files w !! p
  end.

Definition set_node (p : path) (n : node) : M unit :=
  fun w => (mk_world (<[p := n]> (files w)) (trace w), inr tt).

(** [p.exists()] *)
Definition path_exists (p : path) : M bool :=
  fun w => (w, inr (bool_decide (is_Some (lookup_node w p)))).

(** The proper ancestors of [p] and [p] itself, outermost first. *)
Fixpoint ancestors_from (base : path) (p : path) : list path :=
  match p with
  | [] => []
  | name :: rest => child base name :: ancestors_from (child base name) rest
  end.

Fixpoint mkdir_each (target : path) (dirs : list path) : M unit :=
  match dirs with
  | [] => ret tt
  | d :: rest =>
      let* here := (fun w => (w, inr (lookup_node w d))) in
      match here with
      | Some Dir => mkdir_each target rest
      | Some (File _) =>
          raise (if bool_decide (d = target) then FileExistsError else NotADirectoryError)
      | None => set_node d Dir ;; mkdir_each target rest
      end
  end.

(** [p.mkdir(parents=True, exist_ok=True)] *)
Definition mkdir_p (p : path) : M unit := mkdir_each p (ancestors_from [] p).

(** [open(p, "w")] followed by writing [c] and closing. *)
Definition write_file (p : path) (c : content) : M unit :=
  fun w =>
    match lookup_node w p with
    | Some Dir => (w, inl IsADirectoryError)
    | _ =>
        match lookup_node w (parent p) with
        | Some Dir => set_node p (File c) w
        | Some (File _) => (w, inl NotADirectoryError)
        | None => (w, inl FileNotFoundError)
        end
    end.

(** [p.touch()] *)
Definition touch (p : path) : M unit :=
  fun w =>
    match lookup_node w p with
    | Some _ => (w, inr tt)
    | None => write_file p (Raw "") w
    end.

(** [p.stat().st_size == 0] *)
Definition content_is_empty (c : content) : bool :=
  match c with
  | Raw data => bool_decide (data = "")
  | _ => false
  end.

(** A directory reports a size that is not zero. *)
Definition stat_size_is_zero (p : path) : M bool :=
  fun w =>
    match lookup_node w p with
    | Some (File c) => (w, inr (content_is_empty c))
    | Some Dir => (w, inr false)
    | None => (w, inl FileNotFoundError)
    end.

(** [sorted(d.glob("frame_*.jpg"))] *)
Fixpoint path_leb (p q : path) : bool :=
  match p, q with
  | [], _ => true
  | _ :: _, [] => false
  | a :: p', b :: q' =>
      match String.compare a b with
      | Lt => true
      | Gt => false
      | Eq => path_leb p' q'
      end
  end.

Definition path_le (p q : path) : Prop := path_leb p q = true.

#[local] Instance path_le_dec : RelDecision path_le :=
  fun p q => decide (path_leb p q = true).

Definition is_frame_name (name : string) : bool :=
  (6 + 4 <=? String.length name)%nat
  && String.prefix "frame_" name
  && String.eqb (String.substring (String.length name - 4) 4 name) ".jpg".

Definition is_frame_in (d : path) (p : path) : bool :=
  bool_decide (parent p = d)
  && match last p with
     | Some name => is_frame_name name
     | None => false
     end.

Definition glob_frames (d : path) (w : world) : list path :=
  merge_sort path_le
    (filter (fun p => is_frame_in d p = true) (map fst (map_to_list (files w)))).

(** *** The external tools, called on the file at a path *)

(** A failure of ffmpeg to write its output is an [ffmpeg.Error] too, which
    the wrappers re-raise as [RuntimeError]. *)
Definition as_runtime_error {A : Type} (m : M A) : M A :=
  fun w =>
    match m w with
    | (w', inl _) => (w', inl RuntimeError)
    | r => r
    end.

Definition of_tool {A : Type} (failure : exn) (r : option A) : M A :=
  match r with
  | Some a => ret a
  | None => raise failure
  end.

(** [try: x = tool(...) except ffmpeg.Error as exc: raise RuntimeError(...) from exc]:
    only [ffmpeg.Error] is translated, any other exception goes through. *)
Definition except_ffmpeg_error {A : Type} (r : outcome A) : M A :=
  match r with
  | Done a => ret a
  | FfmpegError => raise RuntimeError
  | Crashed e => raise e
  end.

Definition read_node (failure : exn) (p : path) : M node :=
  fun w => of_tool failure (lookup_node w p) w.

(** [ffmpeg.probe(str(video_path))] inside its [try]; on a path that is
    not there ffprobe exits with an error, which is an [ffmpeg.Error]. *)
Definition run_probe (t : tools) (video_path : path) : M (list stream) :=
  log (Probe video_path) ;;
  let* video := read_node RuntimeError video_path in
  except_ffmpeg_error (ffprobe t video).

(** [ffmpeg.input(video).output(output, ac=1, ar=sample_rate, format="wav")
    .overwrite_output().run(quiet=True)] inside its [try]. *)
Definition run_ffmpeg_audio (t : tools) (video_path output_path : path)
    (sample_rate : Z) : M unit :=
  log (FfmpegAudio video_path output_path sample_rate) ;;
  let* video := read_node RuntimeError video_path in
  let* data := except_ffmpeg_error (ffmpeg_audio t video sample_rate) in
  as_runtime_error (write_file output_path (Raw data)).

(** The name ["frame_%04d.jpg" % i]. *)
Definition frame_name (i : Z) : string :=
  "frame_" +:+ PyStr.format_0d 4 i +:+ ".jpg".

Fixpoint write_frames (output_dir : path) (i : Z) (frames : list string) : M unit :=
  match frames with
  | [] => ret tt
  | data :: rest =>
      write_file (child output_dir (frame_name i)) (Raw data) ;;
      write_frames output_dir (i + 1) rest
  end.

(** [ffmpeg.input(video).output(frame_pattern, vf=f"fps={fps}", qscale=2,
    start_number=0).overwrite_output().run(quiet=True)] inside its [try]. *)
Definition run_ffmpeg_frames (t : tools) (video_path output_dir : path)
    (fps : float) : M unit :=
  log (FfmpegFrames video_path output_dir fps) ;;
  let* video := read_node RuntimeError video_path in
  let* frames := except_ffmpeg_error (ffmpeg_frames t video fps) in
  as_runtime_error (write_frames output_dir 0 frames).

(** [whisper.load_model(model).transcribe(str(audio_path), ...)]: no [try]
    around it, an exception raised by whisper reaches the caller. *)
Definition run_whisper (t : tools) (audio_path : path) (model : string)
    (language : option string) : M (option (list raw_segment)) :=
  log (Whisper audio_path model language) ;;
  let* audio := read_node ModelError audio_path in
  lift (whisper_transcribe t model language audio).

(** ** extract_audio.py *)

Fixpoint rfind_dot (name : string) : option nat :=
  match name with
  | EmptyString => None
  | String c rest =>
      match rfind_dot rest with
      | Some i => Some (S i)
      | None => if Ascii.eqb c "." then Some O else None
      end
  end.

(** [Path.stem] *)
Definition stem (p : path) : string :=
  let name := default "" (last p) in
  match rfind_dot name with
  | Some i =>
      if (0 <? i)%nat && (i <? String.length name - 1)%nat
      then String.substring 0 i name else name
  | None => name
  end.

(** [Path.with_name] *)
Definition with_name (p : path) (name : string) : result path :=
  match p with
  | [] => inl ValueError
  | _ => inr (child (parent p) name)
  end.

Definition is_codec (kind : string) (s : stream) : bool :=
  match codec_type s with
  | Some c => String.eqb c kind
  | None => false
  end.

Definition extract_audio (t : tools) (video_path : path) (output_path : option path)
    (sample_rate : Z) : M path :=
  let* found := path_exists video_path in
  if negb found then raise FileNotFoundError else
  let* output_path :=
    match output_path with
    | None => lift (with_name video_path (stem video_path +:+ "_audio.wav"))
    | Some p => ret p
    end in
  mkdir_p (parent output_path) ;;
  let* probe := run_probe t video_path in
  let has_audio_stream := existsb (is_codec "audio") probe in
  if negb has_audio_stream then
    warn (NoAudioStream video_path) ;;
    touch output_path ;;
    ret output_path
  else
    run_ffmpeg_audio t video_path output_path sample_rate ;;
    ret output_path.

(** ** extract_frames.py *)

Definition get_video_fps (t : tools) (video_path : path) : M float :=
  let* found := path_exists video_path in
  if negb found then raise FileNotFoundError else
  let* probe := run_probe t video_path in
  let video_streams := List.filter (is_codec "video") probe in
  match video_streams with
  | [] => raise RuntimeError
  | stream :: _ => of_tool ValueError (stream_rate t stream)
  end.

Definition extract_frames (t : tools) (video_path output_dir : path) (fps : float)
  : M (list path * Z) :=
  let* found := path_exists video_path in
  if negb found then raise FileNotFoundError else
  mkdir_p output_dir ;;
  run_ffmpeg_frames t video_path output_dir fps ;;
  let* frame_paths := (fun w => (w, inr (glob_frames output_dir w))) in
  ret (frame_paths, Z.of_nat (length frame_paths)).

(** ** align.py: [transcribe_audio] *)

(** The loop over [result.get("segments", [])]. *)
Fixpoint transcript_segments (raw : list raw_segment) : list Segment.t :=
  match raw with
  | [] => []
  | segment :: rest =>
      let text := PyStr.strip (default "" (raw_text segment)) in
      match text with
      | EmptyString => transcript_segments rest
      | _ =>
          Segment.mk text (default 0%float (raw_start segment))
            (default 0%float (raw_end segment))
          :: transcript_segments rest
      end
  end.

Definition transcribe_audio (t : tools) (audio_path : path) (model : string)
    (language : option string) : M (list Segment.t) :=
  let* found := path_exists audio_path in
  if negb found then raise FileNotFoundError else
  let* empty := stat_size_is_zero audio_path in
  if empty then
    warn (EmptyAudioFile audio_path) ;;
    ret []
  else
    let* result := run_whisper t audio_path model language in
    ret (transcript_segments (default [] result)).

(** ** align.py: [process_video] *)

(** The second half of [process_video], from the frame extraction to the
    [return]: the frames are sampled, the native rate is probed, the
    transcript is aligned and the two JSON files are written. *)
Definition finish_run (t : tools) (video_path output_dir : path) (fps : float)
    (extracted_audio : path) (segments : list Segment.t)
  : M (list AlignmentEntry.t) :=
  let frame_dir := child output_dir "frames" in
  let* extracted := extract_frames t video_path frame_dir fps in
  let '(_frame_paths, frame_count) := extracted in
  let* video_fps := get_video_fps t video_path in
  let* alignment :=
    match segments with
    | [] => ret []
    | _ => lift (align_frames_to_transcript segments video_fps fps)
    end in
  let alignment_path := child output_dir "alignment.json" in
  write_file alignment_path (AlignmentJson alignment) ;;
  let metadata_path := child output_dir "metadata.json" in
  let metadata :=
    RunMetadata.mk video_path extracted_audio frame_dir frame_count video_fps fps in
  write_file metadata_path (MetadataJson metadata) ;;
  ret alignment.

Definition process_video (t : tools) (video_path output_dir : path)
    (model : string) (fps : float) (language : option string)
  : M (list AlignmentEntry.t) :=
  let* found := path_exists video_path in
  if negb found then raise FileNotFoundError else
  mkdir_p output_dir ;;
  let audio_path := child output_dir "audio.wav" in
  let* extracted_audio := extract_audio t video_path (Some audio_path) 16000 in
  let* empty := stat_size_is_zero extracted_audio in
  let* segments :=
    if empty then
      warn (NoAudioContent video_path) ;;
      ret []
    else transcribe_audio t extracted_audio model language in
  finish_run t video_path output_dir fps extracted_audio segments.

(** ** to_srt.py: [alignment_to_srt] *)

(** [json.load] on the file at [p]. *)
Definition json_load (p : path) : M content :=
  fun w =>
    match lookup_node w p with
    | Some (File (Raw _)) => (w, inl JSONDecodeError)
    | Some (File c) => (w, inr c)
    | Some Dir => (w, inl IsADirectoryError)
    | None => (w, inl FileNotFoundError)
    end.

Definition alignment_to_srt (alignment_json_path output_srt_path : path) : M path :=
  let* found := path_exists alignment_json_path in
  if negb found then raise FileNotFoundError else
  let* alignment := json_load alignment_json_path in
  mkdir_p (parent output_srt_path) ;;
  let* text :=
    match alignment with
    | AlignmentJson record => lift (srt_text record)
    | _ => raise TypeError      (* iterating a dict yields its keys *)
    end in
  write_file output_srt_path (Raw text) ;;
  ret output_srt_path.

(** ** Auxiliary definitions for the rounding proofs *)

(** The state reached after [k] one-bit shifts of [m]: the quotient by
    [2^k], the last bit shifted out and whether any earlier bit was set. *)
Definition shr_state (m : Z) (k : nat) : shr_record :=
  Build_shr_record (m / 2 ^ Z.of_nat k)
    (Z.odd (m / 2 ^ (Z.of_nat k - 1)))
    (negb (m mod 2 ^ (Z.of_nat k - 1) =? 0)).

(** *** Rounding to binary64, seen on scaled integers

    Every exponent met while multiplying two binary64 numbers is at least
    [ebase = 2 * emin]; a positive value [m * 2^e] is therefore the integer
    [scaled m e] counted in units of [2^ebase]. *)

Definition ebase : Z := -2148.

Definition scaled (m e : Z) : Z := m * 2 ^ (e - ebase).

(** The number of low bits of [v] that binary64 cannot keep. *)
Definition Nsh (v : Z) : Z := fexp prec emax (Zdigits2 v + ebase) - ebase.

(** The binary64 rounding (to nearest, ties to even) of [v] units. *)
Definition Rnd (v : Z) : Z := Py.rne v (Nsh v) * 2 ^ Nsh v.

(** The magnitude, in units of [2^ebase], of the rounded product of two
    finite binary64 numbers. *)
Definition mul_units (x f : spec_float) : Z :=
  match x, f with
  | S754_finite _ mx ex, S754_finite _ mf ef =>
      Rnd (scaled (Zpos (mx * mf)) (ex + ef))
  | _, _ => 0
  end.

(** Signs, read off the specification of the comparisons. *)
Definition SFnonneg (x : spec_float) : Prop := SFleb (S754_zero false) x = true.
Definition SFpositive (x : spec_float) : Prop := SFltb (S754_zero false) x = true.
Definition SFnonpos (x : spec_float) : Prop := SFleb x (S754_zero false) = true.

(** ** Vocabulary of the statements about [align_frames_to_transcript] *)

(** Both products computed for [segment] are finite floats, so that
    neither call of [int] raises. *)
Definition finite_products (extraction_fps : float) (segment : Segment.t) : Prop :=
  Py.is_finite (Segment.start_time segment * extraction_fps)%float = true
  /\ Py.is_finite (Segment.end_time segment * extraction_fps)%float = true.

(** A segment as the data model describes it: [0 <= start_time <= end_time]. *)
Definition well_formed (segment : Segment.t) : Prop :=
  (0 <=? Segment.start_time segment)%float = true
  /\ (Segment.start_time segment <=? Segment.end_time segment)%float = true.

(** The entry the specification describes: both frame indices are floors
    of the exact values of the float products. *)
Definition floor_entry (video_fps extraction_fps : float) (segment : Segment.t)
  : AlignmentEntry.t :=
  AlignmentEntry.mk (Segment.text segment)
    (Segment.start_time segment) (Segment.end_time segment)
    (Qfloor (Py.value (Segment.start_time segment * extraction_fps)%float))
    (Qfloor (Py.value (Segment.end_time segment * extraction_fps)%float))
    video_fps.

(** The entry with both frame indices at [0]. *)
Definition zero_entry (video_fps : float) (segment : Segment.t) : AlignmentEntry.t :=
  AlignmentEntry.mk (Segment.text segment)
    (Segment.start_time segment) (Segment.end_time segment) 0 0 video_fps.

Definition frame_interval (entry : AlignmentEntry.t) : Z * Z :=
  (AlignmentEntry.start_frame entry, AlignmentEntry.end_frame entry).

(** The segment an entry was computed from. *)
Definition segment_of (entry : AlignmentEntry.t) : Segment.t :=
  Segment.mk (AlignmentEntry.text entry) (AlignmentEntry.start_time entry)
    (AlignmentEntry.end_time entry).

(** ** Vocabulary of the statements about the subtitle renderer *)

Definition digit_char (d : Z) : ascii := ascii_of_N (48 + Z.to_N d).

(** Exactly two, and exactly three, decimal digits. *)
Definition two_digits (n : Z) : string :=
  String (digit_char (n / 10)) (String (digit_char (n mod 10)) EmptyString).

Definition three_digits (n : Z) : string :=
  String (digit_char (n / 100)) (two_digits (n mod 100)).

(** The hours, zero-padded to two digits; from 100 hours on the decimal
    numeral has its own three or more digits. *)
Definition hours_field (h : Z) : string :=
  if h <? 100 then two_digits h else PyStr.of_int h.

(** The token [HH:MM:SS,mmm]. *)
Definition timestamp_token (h m s ms : Z) : string :=
  hours_field h +:+ ":" +:+ two_digits m +:+ ":" +:+ two_digits s
  +:+ "," +:+ three_digits ms.

Definition total_millis (h m s ms : Z) : Z := ((h * 60 + m) * 60 + s) * 1000 + ms.

(** A text with nothing but whitespace in it (the empty text included). *)
Fixpoint blank (s : string) : bool :=
  match s with
  | EmptyString => true
  | String c rest => PyStr.is_space c && blank rest
  end.

(** The four lines of the entry at position [i] (from 0), numbered from [idx]. *)
Definition block_at (idx : Z) (lines : list string) (i : nat) (entry : AlignmentEntry.t)
  : Prop :=
  exists start_time end_time,
    _format_timestamp (AlignmentEntry.start_time entry) = inr start_time
    /\ _format_timestamp (AlignmentEntry.end_time entry) = inr end_time
    /\ lines !! (4 * i)%nat = Some (PyStr.of_int (idx + Z.of_nat i))
    /\ lines !! (4 * i + 1)%nat = Some (start_time +:+ " --> " +:+ end_time)
    /\ lines !! (4 * i + 2)%nat
       = Some (if blank (AlignmentEntry.text entry) then "[inaudible]"
               else PyStr.strip (AlignmentEntry.text entry))
    /\ lines !! (4 * i + 3)%nat = Some EmptyString.

(** Both timestamps of the entry have a finite millisecond count. *)
Definition finite_millis (entry : AlignmentEntry.t) : Prop :=
  Py.is_finite (AlignmentEntry.start_time entry * 1000)%float = true
  /\ Py.is_finite (AlignmentEntry.end_time entry * 1000)%float = true.

(** ** Vocabulary of the statements about the pipeline *)

(** [w'] keeps every file and directory of [w]: nothing was removed and no
    directory was replaced by a file. *)
Definition extends (w w' : world) : Prop :=
  forall p,
    (is_Some (lookup_node w p) -> is_Some (lookup_node w' p))
    /\ (lookup_node w p = Some Dir -> lookup_node w' p = Some Dir).

(** Neither [p] nor a directory above it is taken by a regular file, so
    that [p] can be created as a directory. *)
Definition no_file_above (w : world) (p : path) : Prop :=
  forall q c, q ∈ ancestors_from [] p -> lookup_node w q <> Some (File c).

Definition is_whisper (e : event) : bool :=
  match e with
  | Whisper _ _ _ => true
  | _ => false
  end.

Definition is_frames (e : event) : bool :=
  match e with
  | FfmpegFrames _ _ _ => true
  | _ => false
  end.

(** The world once [e] has been recorded. *)
Definition logged (e : event) (w : world) : world :=
  mk_world (files w) (trace w ++ [e]).

(** The world once [c] has been written at [p]. *)
Definition written (p : path) (c : content) (w : world) : world :=
  mk_world (<[p := File c]> (files w)) (trace w).

(** From [w] to [w'] the trace grew by events that all satisfy [P]. *)
Definition grows (P : event -> Prop) (w w' : world) : Prop :=
  exists evs, trace w' = trace w ++ evs /\ Forall P evs.

Definition not_whisper (e : event) : Prop := is_whisper e = false.
Definition not_frames (e : event) : Prop := is_frames e = false.
Definition audio_event (e : event) : Prop := is_whisper e = false /\ is_frames e = false.

(** The events of [finish_run]: the call of the frame sampler on [v], into
    [d] at rate [fps], and the probe of the native rate. *)
Definition sampler_event (v d : path) (fps : float) (e : event) : Prop :=
  e = FfmpegFrames v d fps \/ e = Probe v.

(** If [e] is a call of the frame sampler, it is the one on [v], into [d]
    at rate [fps]. *)
Definition sampler_call_is (v d : path) (fps : float) (e : event) : Prop :=
  is_frames e = true -> e = FfmpegFrames v d fps.

(** The exception a call ended with, if any. *)
Definition raised {A : Type} (r : result A) : option exn :=
  match r with
  | inl e => Some e
  | inr _ => None
  end.

(** Some call of an external tool raises [FileNotFoundError] itself, as
    [subprocess] does when the executable is not installed. *)
Definition probe_not_found (t : tools) : Prop :=
  exists n, ffprobe t n = Crashed FileNotFoundError.

Definition audio_tool_not_found (t : tools) (rate : Z) : Prop :=
  exists n, ffmpeg_audio t n rate = Crashed FileNotFoundError.

Definition sampler_not_found (t : tools) (fps : float) : Prop :=
  exists n, ffmpeg_frames t n fps = Crashed FileNotFoundError.

Definition whisper_not_found (t : tools) (model : string) (language : option string)
  : Prop :=
  exists n, whisper_transcribe t model language n = inl FileNotFoundError.

(** One of the tool calls a run of [process_video] can make does. *)
Definition tool_not_found (t : tools) (model : string) (language : option string)
    (fps : float) : Prop :=
  probe_not_found t \/ audio_tool_not_found t 16000
  \/ sampler_not_found t fps \/ whisper_not_found t model language.

(** The alignment computed in [finish_run]. *)
Definition aligned_or_empty (segs : list Segment.t) (vf fps : float)
  : M (list AlignmentEntry.t) :=
  match segs with
  | [] => ret []
  | _ => lift (align_frames_to_transcript segs vf fps)
  end.

(** Every file and directory of [w] is still there, unchanged, in [w']. *)
Definition preserves (w w' : world) : Prop :=
  forall p n, lookup_node w p = Some n -> lookup_node w' p = Some n.

(** From [w] to [w'] a path either kept what it held, or was created as a
    directory at or above [d], or is one of [touched]. *)
Definition footprint (d : path) (touched : path -> Prop) (w w' : world) : Prop :=
  forall q,
    lookup_node w' q = lookup_node w q
    \/ (lookup_node w q = None /\ lookup_node w' q = Some Dir /\ q `prefix_of` d)
    \/ touched q.

Definition nowhere : path -> Prop := fun _ => False.

(** ** A small world to run the pipeline in *)

Module Demo.

Definition video_stream : stream := mk_stream (Some "video") (Some "30/1") None.
Definition audio_stream : stream := mk_stream (Some "audio") None None.

Definition speech : list raw_segment :=
  [mk_raw (Some " hello ") (Some 1.5%float) (Some 2.5%float);
   mk_raw (Some "  ") (Some 3%float) (Some 4%float)].

(** A video with a video stream and, if [with_audio], an audio stream. *)
Definition the_tools (with_audio : bool) : tools :=
  mk_tools
    (fun _ => Done (video_stream :: if with_audio then [audio_stream] else []))
    (fun _ _ => Done "RIFF")
    (fun _ _ => Done ["jpeg0"; "jpeg1"; "jpeg2"])
    (fun _ _ _ => inr (Some speech))
    (fun _ => Some 30%float).

Definition video : path := ["clip.mp4"].
Definition out : path := ["out"].

Definition the_world : world :=
  mk_world (<[video := File (Raw "matroska")]> ∅) [].

(** The same tools on a machine where ffprobe is not installed: starting
    it raises [FileNotFoundError]. *)
Definition no_ffprobe : tools :=
  mk_tools
    (fun _ => Crashed FileNotFoundError)
    (ffmpeg_audio (the_tools true))
    (ffmpeg_frames (the_tools true))
    (whisper_transcribe (the_tools true))
    (stream_rate (the_tools true)).

(** The world after an earlier run into [out] on a longer video, of which
    one frame is still there. *)
Definition stale_frames_world : world :=
  mk_world
    (<[child (child out "frames") "frame_9999.jpg" := File (Raw "old jpeg")]>
       (<[child out "frames" := Dir]> (<[out := Dir]> (files the_world))))
    [].

(** The world after an earlier run into [out] on a video with sound, of
    which the audio track is still there. *)
Definition stale_audio_world : world :=
  mk_world
    (<[child out "audio.wav" := File (Raw "RIFF of an earlier run")]>
       (<[out := Dir]> (files the_world)))
    [].

Definition record : list AlignmentEntry.t :=
  [AlignmentEntry.mk " " 0 1.5 0 1 30;
   AlignmentEntry.mk " hi there " 1.5 75.34 1 75 30].

End Demo.

(** * The model at work *)

(** ** Numbers *)

Example int_truncates :
  Py.int 2.7 = inr 2 /\ Py.int (-2.7) = inr (-2) /\ Py.int (-0.0) = inr 0.
Proof. repeat split. Qed.

Example int_raises :
  Py.int infinity = inl OverflowError /\ Py.int nan = inl ValueError.
Proof. repeat split. Qed.

Example round_ties_to_even :
  Py.round 0.5 = inr 0 /\ Py.round 1.5 = inr 2 /\ Py.round 2.5 = inr 2
  /\ Py.round (-2.5) = inr (-2) /\ Py.round 2.500001 = inr 3.
Proof. repeat split. Qed.

(** The product is the rounded one: [0.7 * 10] is [7.0] in binary64, while
    the decimal [0.7] denotes a float just below seven tenths. *)
Example product_is_rounded :
  Py.int (0.7 * 10) = inr 7 /\ Qfloor (Py.value 0.7 * 10) = 6.
Proof. split; reflexivity. Qed.

(** ** Strings *)

Example format_0d_pads :
  PyStr.format_0d 2 7 = "07" /\ PyStr.format_0d 2 123 = "123"
  /\ PyStr.format_0d 3 (-5) = "-05" /\ PyStr.format_0d 2 (-5) = "-5".
Proof. repeat split. Qed.

Example strip_both_ends : PyStr.strip "  two words " = "two words".
Proof. reflexivity. Qed.

Example stem_drops_last_suffix :
  stem ["clips"; "talk.final.mp4"] = "talk.final" /\ stem [".hidden"] = ".hidden".
Proof. split; reflexivity. Qed.

Example frame_name_7 : frame_name 7 = "frame_0007.jpg".
Proof. reflexivity. Qed.

(** ** Timestamps and subtitles *)

Example format_timestamp_negative :
  _format_timestamp (-0.5) = inr "-1:59:59,500".
Proof. reflexivity. Qed.

Example format_timestamp_hundred_hours :
  _format_timestamp 360000 = inr "100:00:00,000".
Proof. reflexivity. Qed.

Example srt_lines_demo :
  srt_lines Demo.record
  = inr ["1"; "00:00:00,000 --> 00:00:01,500"; "[inaudible]"; "";
         "2"; "00:00:01,500 --> 00:01:15,340"; "hi there"; ""].
Proof. reflexivity. Qed.

(** ** A run of the pipeline *)

Example run_with_speech :
  snd (process_video (Demo.the_tools true) Demo.video Demo.out "small" 1 None
         Demo.the_world)
  = inr [AlignmentEntry.mk "hello" 1.5 2.5 1 2 30].
Proof. reflexivity. Qed.

Example run_trace_with_speech :
  trace (fst (process_video (Demo.the_tools true) Demo.video Demo.out "small" 1 None
                Demo.the_world))
  = [Probe Demo.video;
     FfmpegAudio Demo.video (child Demo.out "audio.wav") 16000;
     Whisper (child Demo.out "audio.wav") "small" None;
     FfmpegFrames Demo.video (child Demo.out "frames") 1;
     Probe Demo.video].
Proof. reflexivity. Qed.

Example run_trace_without_audio :
  trace (fst (process_video (Demo.the_tools false) Demo.video Demo.out "small" 1 None
                Demo.the_world))
  = [Probe Demo.video;
     Warn (NoAudioStream Demo.video);
     Warn (NoAudioContent Demo.video);
     FfmpegFrames Demo.video (child Demo.out "frames") 1;
     Probe Demo.video].
Proof. reflexivity. Qed.

Example frames_found :
  glob_frames (child Demo.out "frames")
    (fst (process_video (Demo.the_tools false) Demo.video Demo.out "small" 1 None
            Demo.the_world))
  = [["out"; "frames"; "frame_0000.jpg"];
     ["out"; "frames"; "frame_0001.jpg"];
     ["out"; "frames"; "frame_0002.jpg"]].
Proof. reflexivity. Qed.

(** * Properties of binary64 rounding *)

Lemma iter_pos_nat {A : Type} (f : A -> A) (p : positive) (x : A) :
  SpecFloat.iter_pos f p x = Nat.iter (Pos.to_nat p) f x.
Proof.
  revert x; induction p as [p IH|p IH|]; intros x; cbn [SpecFloat.iter_pos].
  - rewrite Pos2Nat.inj_xI, !IH.
    replace (S (2 * Pos.to_nat p)) with (Pos.to_nat p + S (Pos.to_nat p))%nat by lia.
    rewrite Nat.iter_add, Nat.iter_succ_r. reflexivity.
  - rewrite Pos2Nat.inj_xO, !IH.
    replace (2 * Pos.to_nat p)%nat with (Pos.to_nat p + Pos.to_nat p)%nat by lia.
    rewrite Nat.iter_add. reflexivity.
  - reflexivity.
Qed.

Lemma shr_1_spec (m : Z) (r s : bool) :
  0 <= m ->
  shr_1 (Build_shr_record m r s) = Build_shr_record (m / 2) (Z.odd m) (r || s).
Proof.
  intros Hm. destruct m as [|[p|p|]|p]; try lia; cbn [shr_1].
  - reflexivity.
  - f_equal. rewrite Pos2Z.inj_xI. 
    replace (2 * Z.pos p + 1) with (1 + Z.pos p * 2) by lia.
    rewrite Z.div_add by lia. reflexivity.
  - f_equal. rewrite Pos2Z.inj_xO, Z.mul_comm, Z.div_mul by lia. reflexivity.
  - reflexivity.
Qed.

Lemma shr_iter_spec (m : Z) (k : nat) :
  0 <= m ->
  Nat.iter (S k) shr_1 (Build_shr_record m false false) = shr_state m (S k).
Proof.
  intros Hm. induction k as [|k IH].
  - cbn [Nat.iter]. rewrite shr_1_spec by lia. unfold shr_state.
    change (Z.of_nat 1 - 1) with 0. change (Z.of_nat 1) with 1.
    rewrite Z.pow_0_r, Z.pow_1_r, Z.div_1_r, Z.mod_1_r. reflexivity.
  - rewrite Nat.iter_succ, IH. unfold shr_state.
    rewrite shr_1_spec by (apply Z.div_pos; lia).
    replace (Z.of_nat (S (S k)) - 1) with (Z.of_nat (S k)) by lia.
    replace (Z.of_nat (S k) - 1) with (Z.of_nat k) by lia.
    rewrite Z.div_div by lia.
    replace (2 ^ Z.of_nat (S k) * 2) with (2 ^ Z.of_nat (S (S k)))
      by (rewrite (Nat2Z.inj_succ (S k)), Z.pow_succ_r; lia).
    f_equal.
    rewrite (Nat2Z.inj_succ k), Z.pow_succ_r by lia.
    set (P := 2 ^ Z.of_nat k). assert (0 < P) by (apply Z.pow_pos_nonneg; lia).
    rewrite (Z.mul_comm 2 P), Z.rem_mul_r by lia.
    rewrite Zodd_mod.
    pose proof (Z.mod_pos_bound m P ltac:(lia)).
    pose proof (Z.mod_pos_bound (m / P) 2 ltac:(lia)).
    destruct (Z.eqb_spec (m mod P) 0), (Z.eqb_spec ((m / P) mod 2) 1),
      (Z.eqb_spec (m mod P + P * ((m / P) mod 2)) 0); cbn; try reflexivity; nia.
Qed.

Lemma shr_pos_spec (m : Z) (p : positive) :
  0 <= m ->
  SpecFloat.iter_pos shr_1 p (Build_shr_record m false false) = shr_state m (Pos.to_nat p).
Proof.
  intros Hm. rewrite iter_pos_nat.
  destruct (Pos2Nat.is_succ p) as [k ->]. apply shr_iter_spec, Hm.
Qed.

Lemma round_shr_state (m : Z) (k : nat) :
  0 <= m -> (0 < k)%nat ->
  round_nearest_even (shr_m (shr_state m k)) (loc_of_shr_record (shr_state m k))
  = Py.rne m (Z.of_nat k).
Proof.
  intros Hm Hk. unfold shr_state, Py.rne. cbn [shr_m].
  assert (E : 2 ^ Z.of_nat k = 2 ^ (Z.of_nat k - 1) * 2).
  { replace (Z.of_nat k) with (Z.succ (Z.of_nat k - 1)) at 1 by lia.
    rewrite Z.pow_succ_r; lia. }
  rewrite E; clear E.
  set (P := 2 ^ (Z.of_nat k - 1)). assert (0 < P) by (apply Z.pow_pos_nonneg; lia).
  rewrite Z.rem_mul_r by lia. rewrite Zodd_mod.
  pose proof (Z.mod_pos_bound m P ltac:(lia)).
  pose proof (Z.mod_pos_bound (m / P) 2 ltac:(lia)).
  destruct (Z.eqb_spec (m mod P) 0), (Z.eqb_spec ((m / P) mod 2) 1);
    cbn [negb loc_of_shr_record round_nearest_even];
    destruct (Z.compare_spec (2 * (m mod P + P * ((m / P) mod 2))) (P * 2));
    try reflexivity; try nia.
Qed.

Lemma rne_bounds (m n : Z) : m / 2 ^ n <= Py.rne m n <= m / 2 ^ n + 1.
Proof.
  unfold Py.rne. destruct (_ ?= _); [destruct (Z.even _)| |]; lia.
Qed.

Lemma rne_exact (a n : Z) : 0 <= n -> Py.rne (a * 2 ^ n) n = a.
Proof.
  intros Hn. assert (0 < 2 ^ n) by (apply Z.pow_pos_nonneg; lia).
  unfold Py.rne. rewrite Z.mod_mul, Z.div_mul by lia.
  destruct (Z.compare_spec (2 * 0) (2 ^ n)); lia.
Qed.

Lemma rne_mono (m1 m2 n : Z) : 0 <= n -> m1 <= m2 -> Py.rne m1 n <= Py.rne m2 n.
Proof.
  intros Hn Hle. assert (HP : 0 < 2 ^ n) by (apply Z.pow_pos_nonneg; lia).
  pose proof (Z.div_le_mono m1 m2 (2 ^ n) HP Hle) as Hq.
  destruct (Z.eq_dec (m1 / 2 ^ n) (m2 / 2 ^ n)) as [E|NE].
  - pose proof (Z.div_mod m1 (2 ^ n) ltac:(lia)) as D1.
    pose proof (Z.div_mod m2 (2 ^ n) ltac:(lia)) as D2.
    unfold Py.rne. rewrite <- E in *.
    destruct (Z.compare_spec (2 * (m1 mod 2 ^ n)) (2 ^ n)),
      (Z.compare_spec (2 * (m2 mod 2 ^ n)) (2 ^ n));
      try destruct (Z.even _); nia.
  - pose proof (rne_bounds m1 n). pose proof (rne_bounds m2 n). lia.
Qed.

Lemma rne_scale (m n k : Z) :
  0 <= n -> 0 <= k -> Py.rne (m * 2 ^ k) (n + k) = Py.rne m n.
Proof.
  intros Hn Hk.
  assert (0 < 2 ^ n) by (apply Z.pow_pos_nonneg; lia).
  assert (0 < 2 ^ k) by (apply Z.pow_pos_nonneg; lia).
  unfold Py.rne. rewrite Z.pow_add_r by lia.
  rewrite Z.div_mul_cancel_r, Z.mul_mod_distr_r by lia.
  destruct (Z.compare_spec (2 * (m mod 2 ^ n)) (2 ^ n)),
    (Z.compare_spec (2 * (m mod 2 ^ n * 2 ^ k)) (2 ^ n * 2 ^ k));
    try reflexivity; nia.
Qed.

(** [Py.rne m n] is a nearest integer to [m / 2^n]. *)
Lemma rne_nearest (m n : Z) :
  0 <= n ->
  2 ^ n * (2 * Py.rne m n - 1) <= 2 * m <= 2 ^ n * (2 * Py.rne m n + 1).
Proof.
  intros Hn. assert (0 < 2 ^ n) by (apply Z.pow_pos_nonneg; lia).
  pose proof (Z.div_mod m (2 ^ n) ltac:(lia)) as D.
  pose proof (Z.mod_pos_bound m (2 ^ n) ltac:(lia)).
  unfold Py.rne.
  destruct (Z.compare_spec (2 * (m mod 2 ^ n)) (2 ^ n));
    try destruct (Z.even _); nia.
Qed.

(** *** Number of binary digits *)

Lemma digits2_pos_size (p : positive) : digits2_pos p = Pos.size p.
Proof. induction p; cbn; congruence. Qed.

Lemma Zdigits2_log2 (m : Z) : 0 < m -> Zdigits2 m = Z.log2 m + 1.
Proof.
  destruct m as [|p|p]; try lia. intros _. cbn [Zdigits2].
  rewrite digits2_pos_size. destruct p; cbn [Pos.size Z.log2]; lia.
Qed.

Lemma Zdigits2_bounds (m : Z) :
  0 < m -> 2 ^ (Zdigits2 m - 1) <= m < 2 ^ Zdigits2 m.
Proof.
  intros Hm. rewrite Zdigits2_log2 by lia.
  pose proof (Z.log2_spec m Hm). replace (Z.log2 m + 1 - 1) with (Z.log2 m) by lia.
  replace (Z.log2 m + 1) with (Z.succ (Z.log2 m)) by lia. lia.
Qed.

Lemma Zdigits2_unique (m d : Z) :
  2 ^ (d - 1) <= m < 2 ^ d -> 0 < d -> Zdigits2 m = d.
Proof.
  intros H Hd. assert (0 < m).
  { assert (0 < 2 ^ (d - 1)) by (apply Z.pow_pos_nonneg; lia). lia. }
  rewrite Zdigits2_log2 by lia.
  rewrite (Z.log2_unique m (d - 1)); try lia.
  replace (Z.succ (d - 1)) with d by lia. lia.
Qed.

Lemma Zdigits2_pos (m : Z) : 0 < m -> 0 < Zdigits2 m.
Proof. destruct m; cbn; lia. Qed.

Lemma Zdigits2_mono (a b : Z) : 0 < a <= b -> Zdigits2 a <= Zdigits2 b.
Proof.
  intros H. rewrite !Zdigits2_log2 by lia.
  pose proof (Z.log2_le_mono a b). lia.
Qed.

Lemma Zdigits2_mul_pow2 (m k : Z) :
  0 < m -> 0 <= k -> Zdigits2 (m * 2 ^ k) = Zdigits2 m + k.
Proof.
  intros Hm Hk. assert (0 < 2 ^ k) by (apply Z.pow_pos_nonneg; lia).
  rewrite !Zdigits2_log2 by nia. rewrite Z.log2_mul_pow2 by lia. lia.
Qed.

Lemma fexp64 (x : Z) : fexp prec emax x = Z.max (x - 53) (-1074).
Proof. reflexivity. Qed.

Lemma pow2_pos (n : Z) : 0 <= n -> 0 < 2 ^ n.
Proof. intros; apply Z.pow_pos_nonneg; lia. Qed.

Lemma pow2_le (a b : Z) : 0 <= a <= b -> 2 ^ a <= 2 ^ b.
Proof. intros; apply Z.pow_le_mono_r; lia. Qed.

Lemma pow2_lt (a b : Z) : 0 <= a < b -> 2 ^ a < 2 ^ b.
Proof. intros; apply Z.pow_lt_mono_r; lia. Qed.

Lemma pow2_split (a b : Z) : 0 <= a -> 0 <= b -> 2 ^ (a + b) = 2 ^ a * 2 ^ b.
Proof. intros; apply Z.pow_add_r; lia. Qed.

(** The second normalisation step of [binary_round_aux] either leaves the
    rounded mantissa alone or halves a power of two. *)
Lemma renormalise (K E : Z) :
  0 <= K -> ebase <= E ->
  (fexp prec emax (Zdigits2 K + E) - E <= 0
   \/ (fexp prec emax (Zdigits2 K + E) - E = 1 /\ exists j, 0 < j /\ K = 2 ^ j)) ->
  forall mrs e2, shr_fexp prec emax K E loc_Exact = (mrs, e2) ->
  0 <= shr_m mrs /\ E <= e2 /\ scaled (shr_m mrs) e2 = scaled K E.
Proof.
  intros HK HE Hcase mrs e2. unfold shr_fexp, shr.
  destruct Hcase as [Hle | (H1 & j & Hj & ->)].
  - destruct (fexp prec emax (Zdigits2 K + E) - E) eqn:En; try lia;
      intros [= <- <-]; cbn [shr_record_of_loc shr_m]; auto with zarith.
  - rewrite H1. cbn [shr_record_of_loc]. rewrite shr_pos_spec by lia.
    intros [= <- <-]. change (Pos.to_nat 1) with 1%nat. unfold shr_state.
    cbn [shr_m]. change (Z.of_nat 1) with 1. rewrite Z.pow_1_r.
    replace (2 ^ j) with (2 ^ (j - 1) * 2)
      by (replace j with ((j - 1) + 1) at 2 by lia; rewrite pow2_split by lia; lia).
    rewrite Z.div_mul by lia. pose proof (pow2_pos (j - 1)).
    split; [lia|]. split; [lia|]. unfold scaled.
    replace (E + 1 - ebase) with (1 + (E - ebase)) by lia.
    rewrite pow2_split by lia. lia.
Qed.

Lemma rne_digits (m n : Z) :
  0 < m -> 0 < n -> n < Zdigits2 m ->
  let K := Py.rne m n in
  (2 ^ (Zdigits2 m - n - 1) <= K < 2 ^ (Zdigits2 m - n))
  \/ K = 2 ^ (Zdigits2 m - n).
Proof.
  intros Hm Hn Hd K. pose proof (Zdigits2_bounds m Hm) as [Hlo Hhi].
  set (d := Zdigits2 m) in *.
  pose proof (rne_bounds m n) as HK. fold K in HK.
  assert (Hq1 : 2 ^ (d - n - 1) <= m / 2 ^ n).
  { apply Z.div_le_lower_bound; [apply pow2_pos; lia|].
    rewrite <- pow2_split by lia. replace (n + (d - n - 1)) with (d - 1) by lia. lia. }
  assert (Hq2 : m / 2 ^ n < 2 ^ (d - n)).
  { apply Z.div_lt_upper_bound; [apply pow2_pos; lia|].
    rewrite <- pow2_split by lia. replace (n + (d - n)) with d by lia. lia. }
  lia.
Qed.

Lemma rne_small (m n : Z) :
  0 < m -> 0 < n -> Zdigits2 m <= n -> 0 <= Py.rne m n <= 1.
Proof.
  intros Hm Hn Hd. pose proof (Zdigits2_bounds m Hm) as [_ Hhi].
  pose proof (Zdigits2_pos m Hm).
  pose proof (pow2_le (Zdigits2 m) n ltac:(lia)).
  pose proof (rne_bounds m n). rewrite Z.div_small in * by lia. lia.
Qed.

Lemma Nsh_scaled (m e : Z) :
  0 < m -> ebase <= e ->
  Nsh (scaled m e) = fexp prec emax (Zdigits2 m + e) - ebase.
Proof.
  intros Hm He. unfold Nsh, scaled. rewrite Zdigits2_mul_pow2 by lia.
  f_equal. f_equal. lia.
Qed.

Lemma Rnd_exact (m e : Z) :
  0 < m -> ebase <= e -> fexp prec emax (Zdigits2 m + e) <= e ->
  Rnd (scaled m e) = scaled m e.
Proof.
  intros Hm He Hn. unfold Rnd. rewrite Nsh_scaled by lia.
  set (E := fexp prec emax (Zdigits2 m + e)) in *.
  assert (ebase <= E) by (unfold E; rewrite fexp64; unfold ebase; lia).
  unfold scaled at 1. replace (e - ebase) with ((e - E) + (E - ebase)) by lia.
  rewrite pow2_split, Z.mul_assoc, rne_exact by lia. unfold scaled.
  rewrite <- Z.mul_assoc, <- pow2_split by lia. f_equal. f_equal. lia.
Qed.

Lemma Rnd_shift (m e n : Z) :
  0 < m -> ebase <= e -> 0 <= n -> fexp prec emax (Zdigits2 m + e) = e + n ->
  Rnd (scaled m e) = scaled (Py.rne m n) (e + n).
Proof.
  intros Hm He Hn HE. unfold Rnd. rewrite Nsh_scaled by lia. rewrite HE.
  unfold scaled. replace (e + n - ebase) with (n + (e - ebase)) by lia.
  rewrite rne_scale by lia. reflexivity.
Qed.

Lemma binary_round_aux_spec (s : bool) (m e : Z) :
  0 < m -> ebase <= e ->
  match binary_round_aux prec emax s m e loc_Exact with
  | S754_zero s' => s' = s /\ Rnd (scaled m e) = 0
  | S754_infinity s' => s' = s
  | S754_nan => False
  | S754_finite s' m' e' =>
      s' = s /\ ebase <= e' /\ scaled (Zpos m') e' = Rnd (scaled m e)
  end.
Proof.
  intros Hm He.
  pose proof (Zdigits2_pos m Hm) as Hd.
  assert (Hfin : exists K E, 0 <= K /\ ebase <= E /\
            scaled K E = Rnd (scaled m e) /\
            (let '(mrs', e') := shr_fexp prec emax m e loc_Exact in
             round_nearest_even (shr_m mrs') (loc_of_shr_record mrs') = K /\ e' = E) /\
            (fexp prec emax (Zdigits2 K + E) - E <= 0
             \/ (fexp prec emax (Zdigits2 K + E) - E = 1 /\ exists j, 0 < j /\ K = 2 ^ j))).
  { unfold shr_fexp at 1, shr.
    destruct (fexp prec emax (Zdigits2 m + e) - e) as [|p|p] eqn:En.
    1,3: exists m, e; cbn [shr_record_of_loc shr_m loc_of_shr_record round_nearest_even];
      (split; [lia|]); (split; [lia|]);
      (split; [symmetry; apply Rnd_exact; lia|split; [auto|left; lia]]).
    exists (Py.rne m (Z.pos p)), (e + Z.pos p).
    cbn [shr_record_of_loc]. rewrite shr_pos_spec by lia.
    rewrite round_shr_state by lia. rewrite positive_nat_Z.
    pose proof (rne_bounds m (Z.pos p)).
    assert (0 <= m / 2 ^ Z.pos p) by (apply Z.div_pos; [lia|apply pow2_pos; lia]).
    split; [lia|]. split; [lia|].
    split; [symmetry; apply Rnd_shift; lia|split; [auto|]].
    rewrite !fexp64 in *.
    destruct (Z_lt_le_dec (Z.pos p) (Zdigits2 m)) as [Hlt|Hge].
    - destruct (rne_digits m (Z.pos p) Hm ltac:(lia) Hlt) as [Hb | Heq].
      + left. rewrite (Zdigits2_unique _ (Zdigits2 m - Z.pos p)); lia.
      + rewrite Heq.
        rewrite (Zdigits2_unique _ (Zdigits2 m - Z.pos p + 1)); try lia.
        * destruct (Z_le_gt_dec (Z.max (Zdigits2 m - Z.pos p + 1 + (e + Z.pos p) - 53) (-1074)
                                     - (e + Z.pos p)) 0); [left; lia|right].
          split; [lia|]. exists (Zdigits2 m - Z.pos p). split; [lia|reflexivity].
        * replace (Zdigits2 m - Z.pos p + 1 - 1) with (Zdigits2 m - Z.pos p) by lia.
          split; [lia|]. apply pow2_lt. lia.
    - left. pose proof (rne_small m (Z.pos p) Hm ltac:(lia) Hge) as Hs.
      assert (Zdigits2 (Py.rne m (Z.pos p)) <= 1).
      { destruct (Z.eq_dec (Py.rne m (Z.pos p)) 0) as [->| ]; [cbn; lia|].
        replace (Py.rne m (Z.pos p)) with 1 by lia. cbn. lia. }
      lia. }
  destruct Hfin as (K & E & HK & HE & Hval & Hfirst & Hcase).
  unfold binary_round_aux.
  destruct (shr_fexp prec emax m e loc_Exact) as [mrs' e'].
  destruct Hfirst as [-> ->].
  destruct (shr_fexp prec emax K E loc_Exact) as [mrs2 e2] eqn:E2.
  destruct (renormalise K E HK HE Hcase mrs2 e2 E2) as (Hnn & Hle & Hsc).
  destruct (shr_m mrs2) as [|q|q] eqn:Eq; try lia.
  - split; [reflexivity|]. rewrite <- Hval, <- Hsc. unfold scaled. lia.
  - destruct (e2 <=? emax - prec); [|reflexivity].
    split; [reflexivity|]. split; [lia|]. congruence.
Qed.

Lemma Nsh_nonneg (v : Z) : 0 <= Nsh v.
Proof. unfold Nsh. rewrite fexp64. unfold ebase. lia. Qed.

Lemma Rnd_mono (v1 v2 : Z) : 0 < v1 <= v2 -> Rnd v1 <= Rnd v2.
Proof.
  intros Hv. pose proof (Zdigits2_mono v1 v2 Hv) as Hd.
  pose proof (Nsh_nonneg v1) as H1. pose proof (Nsh_nonneg v2) as H2.
  pose proof (Zdigits2_bounds v1 ltac:(lia)) as [_ Hhi].
  pose proof (Zdigits2_bounds v2 ltac:(lia)) as [Hlo _].
  pose proof (Zdigits2_pos v1 ltac:(lia)) as Hp1.
  unfold Rnd. destruct (Z.eq_dec (Nsh v1) (Nsh v2)) as [E|NE].
  - rewrite E. apply Z.mul_le_mono_nonneg_r; [apply Z.lt_le_incl, pow2_pos; lia|].
    apply rne_mono; lia.
  - unfold Nsh in *. rewrite !fexp64 in *. unfold ebase in *.
    set (d1 := Zdigits2 v1) in *. set (d2 := Zdigits2 v2) in *.
    set (N1 := Z.max (d1 + -2148 - 53) (-1074) - -2148) in *.
    set (N2 := Z.max (d2 + -2148 - 53) (-1074) - -2148) in *.
    assert (HN : N1 < N2) by lia.
    assert (HN2 : N2 = d2 - 53) by lia.
    assert (Hdd : d1 < d2) by lia.
    apply Z.le_trans with (2 ^ (d2 - 1)).
    + replace (d2 - 1) with ((d2 - 1 - N1) + N1) by lia.
      rewrite pow2_split by lia.
      apply Z.mul_le_mono_nonneg_r; [apply Z.lt_le_incl, pow2_pos; lia|].
      rewrite <- (rne_exact (2 ^ (d2 - 1 - N1)) N1) by lia.
      apply rne_mono; [lia|]. rewrite <- pow2_split by lia.
      replace (d2 - 1 - N1 + N1) with (d2 - 1) by lia.
      pose proof (pow2_le d1 (d2 - 1) ltac:(lia)). lia.
    + replace (d2 - 1) with ((d2 - 1 - N2) + N2) at 1 by lia.
      rewrite pow2_split by lia.
      apply Z.mul_le_mono_nonneg_r; [apply Z.lt_le_incl, pow2_pos; lia|].
      rewrite <- (rne_exact (2 ^ (d2 - 1 - N2)) N2) at 1 by lia.
      apply rne_mono; [lia|]. rewrite <- pow2_split by lia.
      replace (d2 - 1 - N2 + N2) with (d2 - 1) by lia. lia.
Qed.

Lemma Rnd_nonneg (v : Z) : 0 <= v -> 0 <= Rnd v.
Proof.
  intros Hv. unfold Rnd. pose proof (Nsh_nonneg v).
  pose proof (rne_bounds v (Nsh v)). pose proof (pow2_pos (Nsh v) ltac:(lia)).
  assert (0 <= v / 2 ^ Nsh v) by (apply Z.div_pos; lia). nia.
Qed.

(** *** Valid binary64 numbers and their order *)

Lemma valid_finite_inv (s : bool) (m : positive) (e : Z) :
  valid_binary (S754_finite s m e) = true ->
  -1074 <= e <= 971 /\ Zdigits2 (Zpos m) <= 53
  /\ (-1074 < e -> Zdigits2 (Zpos m) = 53).
Proof.
  cbn [SpecFloat.valid_binary]. unfold bounded, canonical_mantissa.
  rewrite andb_true_iff, Z.eqb_eq, Z.leb_le, fexp64.
  change (emax - prec) with 971. cbn [Zdigits2]. lia.
Qed.

Lemma SFleb_finite_pos (mx my : positive) (ex ey : Z) :
  valid_binary (S754_finite false mx ex) = true ->
  valid_binary (S754_finite false my ey) = true ->
  SFleb (S754_finite false mx ex) (S754_finite false my ey) = true ->
  Zpos mx * 2 ^ (ex + 1074) <= Zpos my * 2 ^ (ey + 1074).
Proof.
  intros Vx Vy. apply valid_finite_inv in Vx, Vy.
  destruct Vx as (Hex & Hdx & _), Vy as (Hey & _ & Hdy).
  unfold SFleb, SFcompare. destruct (Z.compare_spec ex ey) as [->|Hlt|Hgt].
  - rewrite Pos.compare_cont_spec. cbn [Pos.switch_Eq].
    destruct (Pos.compare_spec mx my); try discriminate; intros _;
      apply Z.mul_le_mono_nonneg_r; try lia; apply Z.lt_le_incl, pow2_pos; lia.
  - intros _. specialize (Hdy ltac:(lia)).
    pose proof (Zdigits2_bounds (Zpos mx) ltac:(lia)) as [_ Hx].
    pose proof (Zdigits2_bounds (Zpos my) ltac:(lia)) as [Hy _].
    rewrite Hdy in Hy. change (53 - 1) with 52 in Hy.
    pose proof (pow2_le (Zdigits2 (Z.pos mx)) 53 ltac:(pose proof (Zdigits2_pos (Zpos mx)); lia)).
    pose proof (pow2_pos (ex + 1074) ltac:(lia)).
    pose proof (pow2_pos (ey + 1074) ltac:(lia)).
    apply Z.le_trans with (2 ^ 53 * 2 ^ (ex + 1074)); [nia|].
    apply Z.le_trans with (2 ^ 52 * 2 ^ (ey + 1074)); [|nia].
    rewrite <- !pow2_split by lia. apply pow2_le. lia.
  - discriminate.
Qed.

Lemma SFtrunc_scaled (m : positive) (e : Z) :
  ebase <= e ->
  Z.shiftl (Zpos m) e = scaled (Zpos m) e / 2 ^ 2148.
Proof.
  intros He. unfold scaled, ebase in *. destruct (Z_le_gt_dec 0 e).
  - rewrite Z.shiftl_mul_pow2 by lia.
    replace (e - -2148) with (e + 2148) by lia.
    rewrite pow2_split, Z.mul_assoc, Z.div_mul by lia. reflexivity.
  - rewrite Z.shiftl_div_pow2 by lia.
    replace (2 ^ 2148) with (2 ^ (- e) * 2 ^ (e - -2148))
      by (rewrite <- pow2_split by lia; f_equal; lia).
    rewrite Z.div_mul_cancel_r; [reflexivity| |];
      apply Z.neq_sym, Z.lt_neq, pow2_pos; lia.
Qed.

(** *** Products *)

Lemma SFmul_finite_spec (sx sf : bool) (mx mf : positive) (ex ef : Z) :
  valid_binary (S754_finite sx mx ex) = true ->
  valid_binary (S754_finite sf mf ef) = true ->
  match SF64mul (S754_finite sx mx ex) (S754_finite sf mf ef) with
  | S754_zero s' =>
      s' = xorb sx sf /\ Rnd (scaled (Zpos (mx * mf)) (ex + ef)) = 0
  | S754_infinity s' => s' = xorb sx sf
  | S754_nan => False
  | S754_finite s' m' e' =>
      s' = xorb sx sf /\ ebase <= e'
      /\ scaled (Zpos m') e' = Rnd (scaled (Zpos (mx * mf)) (ex + ef))
  end.
Proof.
  intros Vx Vf. apply valid_finite_inv in Vx, Vf.
  unfold SF64mul, SFmul. apply binary_round_aux_spec; unfold ebase; lia.
Qed.

Lemma shiftl_pos_nonneg (m : positive) (e : Z) : 0 <= Z.shiftl (Zpos m) e.
Proof. apply Z.shiftl_nonneg. lia. Qed.

(** On a non-negative number [int] is the floor of the exact value. *)
Lemma SFtrunc_floor (s : bool) (m : positive) (e : Z) :
  Z.shiftl (Zpos m) e = Qfloor (Py.SF2Q (S754_finite false m e)).
Proof.
  unfold Py.SF2Q. cbn [cond_Zopp]. destruct e as [|p|p].
  - rewrite Qfloor_Z, Z.shiftl_mul_pow2 by lia. reflexivity.
  - rewrite Qfloor_Z, Z.shiftl_mul_pow2 by lia. reflexivity.
  - rewrite Z.shiftl_div_pow2 by lia. cbn [Qfloor Z.opp].
    rewrite Pos2Z.inj_pow. reflexivity.
Qed.

Lemma SFnonneg_inv (x : spec_float) :
  SFnonneg x ->
  (exists s, x = S754_zero s) \/ x = S754_infinity false
  \/ exists m e, x = S754_finite false m e.
Proof.
  unfold SFnonneg, SFleb, SFcompare. destruct x as [s|[]| |[] m e]; try discriminate; eauto.
Qed.

Lemma SFpositive_inv (x : spec_float) :
  SFpositive x ->
  x = S754_infinity false \/ exists m e, x = S754_finite false m e.
Proof.
  unfold SFpositive, SFltb, SFcompare. destruct x as [s|[]| |[] m e]; try discriminate; eauto.
Qed.

Lemma SFnonpos_inv (x : spec_float) :
  SFnonpos x ->
  (exists s, x = S754_zero s) \/ x = S754_infinity true
  \/ exists m e, x = S754_finite true m e.
Proof.
  unfold SFnonpos, SFleb, SFcompare. destruct x as [s|[]| |[] m e]; try discriminate; eauto.
Qed.

(** The truncated product of a non-negative number and a positive rate. *)
Lemma SFtrunc_mul_pos (x f : spec_float) :
  valid_binary x = true -> valid_binary f = true ->
  SFnonneg x -> SFpositive f ->
  Py.SFis_finite (SF64mul x f) = true ->
  Py.SFtrunc (SF64mul x f) = inr (mul_units x f / 2 ^ 2148)
  /\ Qfloor (Py.SF2Q (SF64mul x f)) = mul_units x f / 2 ^ 2148
  /\ 0 <= mul_units x f.
Proof.
  intros Vx Vf Hx Hf.
  destruct (SFpositive_inv f Hf) as [-> | (mf & ef & ->)];
    destruct (SFnonneg_inv x Hx) as [(s & ->) | [-> | (mx & ex & ->)]];
    try discriminate; cbn [mul_units]; try (intros _; cbn; auto with zarith; fail).
  pose proof (SFmul_finite_spec false false mx mf ex ef Vx Vf) as Hs.
  destruct (SF64mul _ _) as [s'|s'| |s' m' e']; try discriminate; intros _.
  - destruct Hs as (_ & ->). cbn. auto with zarith.
  - destruct Hs as (-> & He & <-). cbn [Py.SFtrunc xorb cond_Zopp].
    rewrite <- SFtrunc_floor by exact false. rewrite SFtrunc_scaled by lia.
    split; [reflexivity|]. split; [reflexivity|].
    unfold scaled. pose proof (pow2_pos (e' - ebase) ltac:(lia)). lia.
Qed.

Lemma scaled_mul (mx mf : positive) (ex ef : Z) :
  -1074 <= ex -> -1074 <= ef ->
  scaled (Zpos (mx * mf)) (ex + ef)
  = (Zpos mx * 2 ^ (ex + 1074)) * (Zpos mf * 2 ^ (ef + 1074)).
Proof.
  intros Hx Hf. unfold scaled, ebase.
  replace (ex + ef - -2148) with ((ex + 1074) + (ef + 1074)) by lia.
  rewrite pow2_split by lia. rewrite Pos2Z.inj_mul. ring.
Qed.

Lemma mul_units_mono (x y f : spec_float) :
  valid_binary x = true -> valid_binary y = true -> valid_binary f = true ->
  SFnonneg x -> SFleb x y = true -> SFpositive f ->
  Py.SFis_finite y = true ->
  mul_units x f <= mul_units y f.
Proof.
  intros Vx Vy Vf Hx Hxy Hf Hy.
  destruct (SFpositive_inv f Hf) as [-> | (mf & ef & ->)].
  { destruct x, y; cbn; lia. }
  destruct (SFnonneg_inv x Hx) as [(s & ->) | [-> | (mx & ex & ->)]].
  - destruct y as [| | |sy my ey]; cbn [mul_units]; try lia.
    apply Rnd_nonneg. unfold scaled.
    apply valid_finite_inv in Vy, Vf.
    pose proof (pow2_pos (ey + ef - ebase) ltac:(unfold ebase; lia)). lia.
  - destruct y as [sy|sy| |[] my ey]; try discriminate Hxy; discriminate Hy.
  - destruct y as [sy|sy| |[] my ey]; try discriminate. cbn [mul_units].
    + pose proof (SFleb_finite_pos mx my ex ey Vx Vy Hxy) as Hle.
      apply valid_finite_inv in Vx, Vy, Vf.
      rewrite !scaled_mul by lia.
      pose proof (pow2_pos (ex + 1074) ltac:(lia)).
      pose proof (pow2_pos (ef + 1074) ltac:(lia)).
      apply Rnd_mono. split; [nia|].
      apply Z.mul_le_mono_nonneg_r; [nia|exact Hle].
Qed.

(** The truncated product of a non-negative number and a non-positive rate. *)
Lemma SFtrunc_mul_nonpos (x f : spec_float) :
  SFnonneg x -> SFnonpos f ->
  Py.SFis_finite (SF64mul x f) = true ->
  exists i, Py.SFtrunc (SF64mul x f) = inr i /\ i <= 0.
Proof.
  intros Hx Hf.
  destruct (SFnonpos_inv f Hf) as [(s & ->) | [-> | (mf & ef & ->)]];
    destruct (SFnonneg_inv x Hx) as [(s' & ->) | [-> | (mx & ex & ->)]];
    try discriminate; try (intros _; cbn; eexists; split; [reflexivity|lia]).
  unfold SF64mul, SFmul. cbn [xorb]. unfold binary_round_aux.
  destruct (shr_fexp _ _ _ _ _) as [mrs' e'].
  destruct (shr_fexp _ _ _ _ _) as [mrs2 e2].
  destruct (shr_m mrs2); [| destruct (_ <=? _) |]; try discriminate; intros _;
    cbn [Py.SFtrunc cond_Zopp]; eexists; (split; [reflexivity|]); try lia.
  pose proof (shiftl_pos_nonneg p e2). lia.
Qed.

(** [int] and [round] fail exactly on NaN and the infinities. *)
Lemma SFtrunc_finite (x : spec_float) :
  Py.SFis_finite x = true <-> exists i, Py.SFtrunc x = inr i.
Proof.
  destruct x; cbn; split; try discriminate; eauto; intros [i Hi]; discriminate.
Qed.

(** * [align_frames_to_transcript] *)

(** ** From primitive floats to their specification *)

Lemma Prim2SF_zero : Prim2SF 0 = S754_zero false.
Proof. reflexivity. Qed.

Lemma float_nonneg (x : float) : (0 <=? x)%float = true -> SFnonneg (Prim2SF x).
Proof. rewrite leb_spec, Prim2SF_zero. auto. Qed.

Lemma float_positive (x : float) : (0 <? x)%float = true -> SFpositive (Prim2SF x).
Proof. rewrite ltb_spec, Prim2SF_zero. auto. Qed.

Lemma float_nonpos (x : float) : (x <=? 0)%float = true -> SFnonpos (Prim2SF x).
Proof. rewrite leb_spec, Prim2SF_zero. auto. Qed.

Lemma int_mul (x f : float) :
  Py.int (x * f)%float = Py.SFtrunc (SF64mul (Prim2SF x) (Prim2SF f)).
Proof. unfold Py.int. rewrite mul_spec. reflexivity. Qed.

Lemma int_finite (x : float) :
  Py.is_finite x = true <-> exists i, Py.int x = inr i.
Proof. apply SFtrunc_finite. Qed.

Lemma int_error_kind (x : float) (e : exn) :
  Py.int x = inl e -> e = ValueError \/ e = OverflowError.
Proof.
  unfold Py.int. destruct (Prim2SF x); cbn; intros [= <-]; auto.
Qed.

(** ** The loop *)

Lemma align_loop_acc (vf fps : float) (segments : list Segment.t)
    (acc : list AlignmentEntry.t) :
  align_loop vf fps segments acc
  = bind_result (align_loop vf fps segments []) (fun out => inr (acc ++ out)).
Proof.
  revert acc. induction segments as [|seg rest IH]; intros acc; cbn [align_loop].
  - cbn. rewrite app_nil_r. reflexivity.
  - destruct (align_segment vf fps seg) as [e|entry]; cbn [bind_result]; [reflexivity|].
    rewrite (IH (acc ++ [entry])), (IH ([] ++ [entry])).
    destruct (align_loop vf fps rest []) as [e|out]; cbn [bind_result]; [reflexivity|].
    rewrite <- app_assoc. reflexivity.
Qed.

Lemma align_cons (vf fps : float) (seg : Segment.t) (rest : list Segment.t) :
  align_frames_to_transcript (seg :: rest) vf fps
  = bind_result (align_segment vf fps seg) (fun entry =>
    bind_result (align_frames_to_transcript rest vf fps) (fun out =>
    inr (entry :: out))).
Proof.
  unfold align_frames_to_transcript. cbn [align_loop].
  destruct (align_segment vf fps seg) as [e|entry]; cbn [bind_result]; [reflexivity|].
  rewrite align_loop_acc. reflexivity.
Qed.

Lemma align_nil (vf fps : float) : align_frames_to_transcript [] vf fps = inr [].
Proof. reflexivity. Qed.

(** The output, when there is one, pairs up with the input, entry by entry. *)
Lemma align_Forall2 (vf fps : float) (segments : list Segment.t)
    (out : list AlignmentEntry.t) :
  align_frames_to_transcript segments vf fps = inr out <->
  Forall2 (fun seg entry => align_segment vf fps seg = inr entry) segments out.
Proof.
  revert out. induction segments as [|seg rest IH]; intros out.
  - rewrite align_nil. split.
    + intros [= <-]. constructor.
    + intros H. inversion H. reflexivity.
  - rewrite align_cons. split.
    + destruct (align_segment vf fps seg) as [e|entry] eqn:Es; [discriminate|].
      cbn [bind_result].
      destruct (align_frames_to_transcript rest vf fps) as [e|out'] eqn:Er;
        [discriminate|].
      intros [= <-]. constructor; [exact Es|]. apply IH. reflexivity.
    + intros H. inversion H as [|? entry ? out' Hs Hr]; subst.
      rewrite Hs. cbn [bind_result]. apply IH in Hr. rewrite Hr. reflexivity.
Qed.

Lemma align_segment_finite (vf fps : float) (seg : Segment.t) :
  finite_products fps seg <-> exists entry, align_segment vf fps seg = inr entry.
Proof.
  unfold finite_products, align_segment. rewrite !int_finite. split.
  - intros [[i ->] [j ->]]. cbn. eauto.
  - destruct (Py.int (Segment.start_time seg * fps)) as [e|i]; cbn.
    + intros [? ?]; discriminate.
    + destruct (Py.int (Segment.end_time seg * fps)) as [e|j]; cbn.
      * intros [? ?]; discriminate.
      * eauto.
Qed.

Lemma align_returns (vf fps : float) (segments : list Segment.t) :
  Forall (finite_products fps) segments <->
  exists out, align_frames_to_transcript segments vf fps = inr out.
Proof.
  induction segments as [|seg rest IH].
  - split; [eexists; reflexivity|constructor].
  - rewrite align_cons, Forall_cons_iff, IH, (align_segment_finite vf). split.
    + intros [[entry ->] [out ->]]. cbn. eauto.
    + destruct (align_segment vf fps seg) as [e|entry]; cbn.
      * intros [? ?]; discriminate.
      * destruct (align_frames_to_transcript rest vf fps) as [e|out]; cbn.
        -- intros [? ?]; discriminate.
        -- eauto.
Qed.

Lemma align_segment_fields (vf fps : float) (seg : Segment.t) (entry : AlignmentEntry.t) :
  align_segment vf fps seg = inr entry ->
  AlignmentEntry.text entry = Segment.text seg
  /\ AlignmentEntry.start_time entry = Segment.start_time seg
  /\ AlignmentEntry.end_time entry = Segment.end_time seg
  /\ AlignmentEntry.video_fps entry = vf
  /\ 0 <= AlignmentEntry.start_frame entry <= AlignmentEntry.end_frame entry.
Proof.
  unfold align_segment.
  destruct (Py.int (Segment.start_time seg * fps)) as [e|i]; [discriminate|].
  destruct (Py.int (Segment.end_time seg * fps)) as [e|j]; [discriminate|].
  cbn. intros [= <-]. cbn. repeat split; lia.
Qed.

Lemma align_segment_floor (vf fps : float) (seg : Segment.t) :
  (0 <? fps)%float = true -> well_formed seg -> finite_products fps seg ->
  align_segment vf fps seg = inr (floor_entry vf fps seg).
Proof.
  intros Hfps [H0 Hle] [Fs Fe]. unfold align_segment, floor_entry, Py.value.
  rewrite !int_mul, !mul_spec. unfold Py.is_finite in Fs, Fe.
  rewrite mul_spec in Fs, Fe. rewrite leb_spec in Hle.
  set (x := Prim2SF (Segment.start_time seg)) in *.
  set (y := Prim2SF (Segment.end_time seg)) in *.
  set (f := Prim2SF fps) in *.
  pose proof (Prim2SF_valid (Segment.start_time seg)) as Vx.
  pose proof (Prim2SF_valid (Segment.end_time seg)) as Vy.
  pose proof (Prim2SF_valid fps) as Vf. fold x in Vx. fold y in Vy. fold f in Vf.
  pose proof (float_nonneg _ H0) as Nx. fold x in Nx.
  pose proof (float_positive _ Hfps) as Pf. fold f in Pf.
  assert (Ny : SFnonneg y).
  { unfold SFnonneg, SFleb, SFcompare in *.
    destruct x as [| [] | | [] ], y as [| [] | | [] ]; try discriminate; reflexivity. }
  assert (Yfin : Py.SFis_finite y = true).
  { destruct (SFpositive_inv f Pf) as [-> | (mf & ef & ->)];
      destruct y; try discriminate; reflexivity. }
  destruct (SFtrunc_mul_pos x f Vx Vf Nx Pf Fs) as (-> & -> & Hx0).
  destruct (SFtrunc_mul_pos y f Vy Vf Ny Pf Fe) as (-> & -> & Hy0).
  pose proof (mul_units_mono x y f Vx Vy Vf Nx Hle Pf Yfin) as Hm.
  cbn [bind_result].
  assert (HP : 0 < 2 ^ 2148) by (apply pow2_pos; lia).
  pose proof (Z.div_pos (mul_units x f) (2 ^ 2148) Hx0 HP).
  pose proof (Z.div_le_mono _ _ (2 ^ 2148) HP Hm).
  rewrite (Z.max_r 0) by lia. rewrite Z.max_r by lia. reflexivity.
Qed.

Lemma align_segment_nonpos (vf fps : float) (seg : Segment.t) :
  (fps <=? 0)%float = true ->
  (0 <=? Segment.start_time seg)%float = true ->
  (0 <=? Segment.end_time seg)%float = true ->
  finite_products fps seg ->
  align_segment vf fps seg = inr (zero_entry vf seg).
Proof.
  intros Hfps Hs He [Fs Fe]. unfold align_segment, zero_entry.
  rewrite !int_mul. unfold Py.is_finite in Fs, Fe. rewrite mul_spec in Fs, Fe.
  destruct (SFtrunc_mul_nonpos _ _ (float_nonneg _ Hs) (float_nonpos _ Hfps) Fs)
    as (i & -> & Hi).
  destruct (SFtrunc_mul_nonpos _ _ (float_nonneg _ He) (float_nonpos _ Hfps) Fe)
    as (j & -> & Hj).
  cbn [bind_result]. rewrite (Z.max_l 0 i) by lia. rewrite Z.max_l by lia.
  reflexivity.
Qed.

Lemma align_map (vf fps : float) (segments : list Segment.t)
    (mk_entry : Segment.t -> AlignmentEntry.t) :
  Forall (fun seg => align_segment vf fps seg = inr (mk_entry seg)) segments ->
  align_frames_to_transcript segments vf fps = inr (map mk_entry segments).
Proof.
  induction 1 as [|seg rest Hs _ IH]; [reflexivity|].
  rewrite align_cons, Hs. cbn [bind_result]. rewrite IH. reflexivity.
Qed.

Lemma align_error_kind (vf fps : float) (segments : list Segment.t) (e : exn) :
  align_frames_to_transcript segments vf fps = inl e ->
  e = ValueError \/ e = OverflowError.
Proof.
  revert e. induction segments as [|seg rest IH]; intros e.
  - rewrite align_nil. discriminate.
  - rewrite align_cons. unfold align_segment.
    destruct (Py.int (Segment.start_time seg * fps)) as [e1|i] eqn:E1.
    { cbn. intros [= <-]. eapply int_error_kind, E1. }
    destruct (Py.int (Segment.end_time seg * fps)) as [e2|j] eqn:E2.
    { cbn. intros [= <-]. eapply int_error_kind, E2. }
    cbn [bind_result].
    destruct (align_frames_to_transcript rest vf fps) as [e3|out]; cbn; [|discriminate].
    intros [= <-]. apply IH. reflexivity.
Qed.

Lemma align_empty_iff (vf fps : float) (segments : list Segment.t)
    (out : list AlignmentEntry.t) :
  align_frames_to_transcript segments vf fps = inr out ->
  (out = [] <-> segments = []).
Proof.
  intros H. apply align_Forall2 in H. apply Forall2_length in H.
  destruct segments, out; cbn in H; try lia; split; intros; try reflexivity; discriminate.
Qed.

(** Every returned entry is the one computed from its own text and times. *)
Lemma align_entries_recomputed (vf fps : float) (segments : list Segment.t)
    (out : list AlignmentEntry.t) :
  align_frames_to_transcript segments vf fps = inr out ->
  Forall (fun entry => align_segment vf fps (segment_of entry) = inr entry) out.
Proof.
  intros H. apply align_Forall2 in H.
  induction H as [|seg entry rest out Hs _ IH]; constructor; [|exact IH].
  destruct (align_segment_fields _ _ _ _ Hs) as (Ht & Hst & Hen & _).
  unfold segment_of. rewrite Ht, Hst, Hen. destruct seg. exact Hs.
Qed.

(** * The subtitle renderer *)

(** ** [round] *)

Lemma SFround_nearest (r : spec_float) :
  Py.SFis_finite r = true ->
  exists k, Py.SFround r = inr k
            /\ (Qabs (Py.SF2Q r - inject_Z k) <= 1 # 2)%Q
            /\ (match r with S754_finite true _ _ => False | _ => True end -> 0 <= k).
Proof.
  destruct r as [s|s| |s m e]; try discriminate; intros _.
  - exists 0. split; [reflexivity|]. split; [|lia]. cbn. discriminate.
  - cbn [Py.SFround Py.SF2Q]. eexists. split; [reflexivity|]. split.
    + apply Qabs_Qle_condition. destruct e as [|p|p].
      * unfold Qle, Qminus, Qplus, Qopp, inject_Z. cbn [Qnum Qden].
        destruct s; cbn [cond_Zopp]; lia.
      * unfold Qle, Qminus, Qplus, Qopp, inject_Z. cbn [Qnum Qden].
        destruct s; cbn [cond_Zopp]; lia.
      * pose proof (rne_nearest (Zpos m) (Zpos p) ltac:(lia)) as Hn.
        unfold Qle, Qminus, Qplus, Qopp, inject_Z.
        cbn [Qnum Qden]. rewrite !Pos2Z.inj_mul, Pos2Z.inj_pow.
        set (P := 2 ^ Z.pos p) in *. set (k := Py.rne (Z.pos m) (Z.pos p)) in *.
        assert (0 < P) by (apply pow2_pos; lia).
        destruct s; cbn [cond_Zopp]; split; nia.
    + destruct s; [tauto|]. intros _. cbn [cond_Zopp]. destruct e as [|p|p]; try lia.
      pose proof (rne_bounds (Zpos m) (Zpos p)).
      assert (0 <= Zpos m / 2 ^ Zpos p) by (apply Z.div_pos; [lia|apply pow2_pos; lia]).
      lia.
Qed.

Lemma SFmul_nonneg_sign (x f : spec_float) :
  SFnonneg x -> SFpositive f ->
  match SF64mul x f with S754_finite true _ _ => False | _ => True end.
Proof.
  intros Hx Hf.
  destruct (SFpositive_inv f Hf) as [-> | (mf & ef & ->)];
    destruct (SFnonneg_inv x Hx) as [(s & ->) | [-> | (mx & ex & ->)]];
    try exact I.
  unfold SF64mul, SFmul. cbn [xorb]. unfold binary_round_aux.
  destruct (shr_fexp _ _ _ _ _) as [mrs' e'].
  destruct (shr_fexp _ _ _ _ _) as [mrs2 e2].
  destruct (shr_m mrs2); [| destruct (_ <=? _) |]; exact I.
Qed.

Lemma round_millis (seconds : float) :
  (0 <=? seconds)%float = true ->
  Py.is_finite (seconds * 1000)%float = true ->
  exists millis,
    Py.round (seconds * 1000)%float = inr millis /\ 0 <= millis
    /\ (Qabs (Py.value (seconds * 1000)%float - inject_Z millis) <= 1 # 2)%Q.
Proof.
  intros Hs Hfin. unfold Py.round, Py.value, Py.is_finite in *.
  destruct (SFround_nearest _ Hfin) as (k & Hk & Hnear & Hpos).
  exists k. split; [exact Hk|]. split; [|exact Hnear].
  apply Hpos. rewrite mul_spec. apply SFmul_nonneg_sign.
  - apply float_nonneg, Hs.
  - apply float_positive. reflexivity.
Qed.

(** ** Zero-padded fields *)

Lemma small_check (P : Z -> bool) (bound : nat) :
  forallb (fun i => P (Z.of_nat i)) (seq 0 bound) = true ->
  forall n, 0 <= n < Z.of_nat bound -> P n = true.
Proof.
  intros Hall n Hn. rewrite forallb_forall in Hall.
  specialize (Hall (Z.to_nat n)). rewrite Z2Nat.id in Hall by lia.
  apply Hall. apply in_seq. lia.
Qed.

Lemma format_two_digits (n : Z) :
  0 <= n < 100 -> PyStr.format_0d 2 n = two_digits n.
Proof.
  intros Hn. apply String.eqb_eq.
  apply (small_check (fun n => String.eqb (PyStr.format_0d 2 n) (two_digits n)) 100);
    [vm_compute; reflexivity|exact Hn].
Qed.

Lemma format_three_digits (n : Z) :
  0 <= n < 1000 -> PyStr.format_0d 3 n = three_digits n.
Proof.
  intros Hn. apply String.eqb_eq.
  apply (small_check (fun n => String.eqb (PyStr.format_0d 3 n) (three_digits n)) 1000);
    [vm_compute; reflexivity|exact Hn].
Qed.

Lemma digits_length (n : N) : (10 <= n)%N -> (2 <= String.length (PyStr.digits n))%nat.
Proof.
  intros Hn. unfold PyStr.digits.
  pose proof (DecimalN.Unsigned.of_to n) as Hof.
  destruct (N.to_uint n) as [|u|u|u|u|u|u|u|u|u|u];
    try (cbn in Hof; lia);
    destruct u; try (vm_compute in Hof; lia); cbn; lia.
Qed.

Lemma format_hours (h : Z) : 0 <= h -> PyStr.format_0d 2 h = hours_field h.
Proof.
  intros Hh. unfold hours_field. destruct (Z.ltb_spec h 100).
  - apply format_two_digits. lia.
  - unfold PyStr.format_0d, PyStr.of_int. destruct (Z.ltb_spec h 0); [lia|].
    unfold PyStr.zfill.
    pose proof (digits_length (Z.to_N h) ltac:(lia)).
    replace (2 - String.length (PyStr.digits (Z.to_N h)))%nat with O by lia.
    reflexivity.
Qed.

Lemma format_timestamp_of_millis (seconds : float) (millis : Z) :
  Py.round (seconds * 1000)%float = inr millis -> 0 <= millis ->
  exists h m s ms,
    0 <= h /\ 0 <= m < 60 /\ 0 <= s < 60 /\ 0 <= ms < 1000
    /\ total_millis h m s ms = millis
    /\ _format_timestamp seconds = inr (timestamp_token h m s ms).
Proof.
  intros Hr Hm. unfold _format_timestamp. rewrite Hr. cbn [bind_result].
  set (h := millis / 3600000). set (r1 := millis mod 3600000).
  set (m := r1 / 60000). set (r2 := r1 mod 60000).
  set (s := r2 / 1000). set (ms := r2 mod 1000).
  pose proof (Z.div_mod millis 3600000 ltac:(lia)) as D1.
  pose proof (Z.mod_pos_bound millis 3600000 ltac:(lia)) as B1.
  pose proof (Z.div_mod r1 60000 ltac:(lia)) as D2.
  pose proof (Z.mod_pos_bound r1 60000 ltac:(lia)) as B2.
  pose proof (Z.div_mod r2 1000 ltac:(lia)) as D3.
  pose proof (Z.mod_pos_bound r2 1000 ltac:(lia)) as B3.
  fold h r1 in D1, B1. fold m r2 in D2, B2. fold s ms in D3, B3. fold r1 in D2.
  fold r2 in D3.
  assert (0 <= h) by (apply Z.div_pos; lia).
  assert (0 <= m < 60) by (split; [apply Z.div_pos; lia|apply Z.div_lt_upper_bound; lia]).
  assert (0 <= s < 60) by (split; [apply Z.div_pos; lia|apply Z.div_lt_upper_bound; lia]).
  exists h, m, s, ms. repeat (split; [lia|]). split; [unfold total_millis; lia|].
  unfold timestamp_token.
  rewrite format_hours, !format_two_digits, format_three_digits by lia.
  reflexivity.
Qed.

(** ** [strip] and blank texts *)

Lemma lstrip_blank (s : string) : blank (PyStr.lstrip s) = blank s.
Proof.
  induction s as [|c s IH]; [reflexivity|]. cbn [PyStr.lstrip blank].
  destruct (PyStr.is_space c) eqn:Ec; [exact IH|]. cbn [blank]. rewrite Ec. reflexivity.
Qed.

Lemma rstrip_empty (s : string) : PyStr.rstrip s = EmptyString <-> blank s = true.
Proof.
  induction s as [|c s IH]; [cbn; tauto|]. cbn [PyStr.rstrip blank].
  destruct (PyStr.rstrip s) as [|c' r].
  - destruct (PyStr.is_space c); cbn [andb].
    + rewrite <- IH. tauto.
    + split; discriminate.
  - split; [discriminate|]. rewrite andb_true_iff, <- IH. intros [_ ?]. discriminate.
Qed.

Lemma strip_empty (s : string) : PyStr.strip s = EmptyString <-> blank s = true.
Proof. unfold PyStr.strip. rewrite rstrip_empty, lstrip_blank. tauto. Qed.

Lemma text_or_placeholder (text : string) :
  PyStr.or_else (PyStr.strip text) "[inaudible]"
  = if blank text then "[inaudible]" else PyStr.strip text.
Proof.
  destruct (blank text) eqn:Eb.
  - apply strip_empty in Eb. rewrite Eb. reflexivity.
  - destruct (PyStr.strip text) eqn:Es; [|reflexivity].
    apply strip_empty in Es. congruence.
Qed.

(** ** The rendering loop *)

Lemma srt_loop_acc (idx : Z) (alignment : list AlignmentEntry.t) (lines : list string) :
  srt_loop idx alignment lines
  = bind_result (srt_loop idx alignment []) (fun out => inr (lines ++ out)).
Proof.
  revert idx lines. induction alignment as [|entry rest IH]; intros idx lines;
    cbn [srt_loop].
  - cbn. rewrite app_nil_r. reflexivity.
  - destruct (srt_block idx entry) as [e|block]; cbn [bind_result]; [reflexivity|].
    rewrite (IH _ (lines ++ block)), (IH _ ([] ++ block)).
    destruct (srt_loop (idx + 1) rest []) as [e|out]; cbn [bind_result]; [reflexivity|].
    rewrite <- app_assoc. reflexivity.
Qed.

Lemma srt_loop_cons (idx : Z) (entry : AlignmentEntry.t) (rest : list AlignmentEntry.t) :
  srt_loop idx (entry :: rest) []
  = bind_result (srt_block idx entry) (fun block =>
    bind_result (srt_loop (idx + 1) rest []) (fun out => inr (block ++ out))).
Proof.
  cbn [srt_loop]. destruct (srt_block idx entry) as [e|block]; cbn [bind_result];
    [reflexivity|].
  rewrite srt_loop_acc. reflexivity.
Qed.

Lemma srt_block_inv (idx : Z) (entry : AlignmentEntry.t) (block : list string) :
  srt_block idx entry = inr block ->
  length block = 4%nat /\ block_at idx block 0 entry.
Proof.
  unfold srt_block.
  destruct (_format_timestamp (AlignmentEntry.start_time entry)) as [e|st] eqn:Es;
    [discriminate|].
  destruct (_format_timestamp (AlignmentEntry.end_time entry)) as [e|en] eqn:Ee;
    [discriminate|].
  cbn [bind_result]. intros [= <-]. split; [reflexivity|].
  exists st, en. rewrite text_or_placeholder, Z.add_0_r.
  split; [exact Es|]. split; [exact Ee|]. cbn. auto.
Qed.

Lemma srt_loop_spec (alignment : list AlignmentEntry.t) :
  forall (idx : Z) (lines : list string),
    srt_loop idx alignment [] = inr lines ->
    length lines = (4 * length alignment)%nat
    /\ forall i entry, alignment !! i = Some entry -> block_at idx lines i entry.
Proof.
  induction alignment as [|entry rest IH]; intros idx lines.
  - cbn. intros [= <-]. split; [reflexivity|]. intros i e Hi. discriminate.
  - rewrite srt_loop_cons.
    destruct (srt_block idx entry) as [e|block] eqn:Eb; [discriminate|].
    cbn [bind_result].
    destruct (srt_loop (idx + 1) rest []) as [e|out] eqn:Er; [discriminate|].
    cbn [bind_result]. intros [= <-].
    destruct (srt_block_inv _ _ _ Eb) as (Hlen & st & en & Hs & He & H0 & H1 & H2 & H3).
    destruct (IH _ _ Er) as (Hlen' & Hrest).
    split; [rewrite length_app; cbn [length]; lia|].
    intros [|i] e Hi.
    + injection Hi as <-. exists st, en.
      rewrite !lookup_app_l by lia. auto 10.
    + cbn in Hi. destruct (Hrest i e Hi) as (st' & en' & Hs' & He' & G0 & G1 & G2 & G3).
      exists st', en'. split; [exact Hs'|]. split; [exact He'|].
      rewrite !lookup_app_r by lia. rewrite Hlen.
      replace (4 * S i - 4)%nat with (4 * i)%nat by lia.
      replace (4 * S i + 1 - 4)%nat with (4 * i + 1)%nat by lia.
      replace (4 * S i + 2 - 4)%nat with (4 * i + 2)%nat by lia.
      replace (4 * S i + 3 - 4)%nat with (4 * i + 3)%nat by lia.
      replace (idx + Z.of_nat (S i)) with (idx + 1 + Z.of_nat i) by lia.
      auto.
Qed.

Lemma format_timestamp_returns (seconds : float) :
  Py.is_finite (seconds * 1000)%float = true <->
  exists token, _format_timestamp seconds = inr token.
Proof.
  unfold _format_timestamp, Py.is_finite, Py.round.
  destruct (Prim2SF (seconds * 1000)); cbn; split; try discriminate; eauto;
    intros [? ?]; discriminate.
Qed.

Lemma srt_loop_returns (alignment : list AlignmentEntry.t) :
  forall idx,
    Forall finite_millis alignment <->
    exists lines, srt_loop idx alignment [] = inr lines.
Proof.
  induction alignment as [|entry rest IH]; intros idx.
  - split; [eexists; reflexivity|constructor].
  - rewrite srt_loop_cons, Forall_cons_iff, (IH (idx + 1)). unfold finite_millis, srt_block.
    rewrite !format_timestamp_returns. split.
    + intros [[[st ->] [en ->]] [out ->]]. cbn. eauto.
    + destruct (_format_timestamp (AlignmentEntry.start_time entry)) as [e|st];
        [intros [? ?]; discriminate|].
      destruct (_format_timestamp (AlignmentEntry.end_time entry)) as [e|en];
        [intros [? ?]; discriminate|].
      cbn [bind_result].
      destruct (srt_loop (idx + 1) rest []) as [e|out]; [intros [? ?]; discriminate|].
      intros _. split; [split|]; eexists; reflexivity.
Qed.

(** * The pipeline *)

(** ** The monad *)

Lemma bind_inv {A B : Type} (m : M A) (k : A -> M B) (w w' : world) (r : result B) :
  bind m k w = (w', r) ->
  (exists e, m w = (w', inl e) /\ r = inl e)
  \/ (exists w1 a, m w = (w1, inr a) /\ k a w1 = (w', r)).
Proof.
  unfold bind. destruct (m w) as [w1 [e|a]].
  - intros [= <- <-]. left. eauto.
  - intros H. right. eauto.
Qed.

Lemma bind_ok {A B : Type} (m : M A) (k : A -> M B) (w w1 : world) (a : A) :
  m w = (w1, inr a) -> bind m k w = k a w1.
Proof. unfold bind. intros ->. reflexivity. Qed.

(** Case analysis on a sequenced computation [H : bind m k w = (w', r)]:
    either [m] raised [e], or it returned [a] in the world [w1] and [k a]
    went on from there. *)
Tactic Notation "bind_cases" hyp(H) "as"
    ident(w1) simple_intropattern(a) ident(H1) :=
  apply bind_inv in H;
  destruct H as [(e & H & ->) | (w1 & a & H1 & H)].

(** ** Worlds *)

(** Closing the cases where no exception, or not this one, was raised. *)
Ltac no_exn := let E := fresh "E" in intros E; discriminate E.
Ltac absurd_exn Hf := let E := fresh "E" in intros E; destruct (Hf E).

Lemma extends_refl (w : world) : extends w w.
Proof. intros p. tauto. Qed.

Lemma extends_trans (w1 w2 w3 : world) : extends w1 w2 -> extends w2 w3 -> extends w1 w3.
Proof. intros H1 H2 p. destruct (H1 p), (H2 p). split; auto. Qed.

Lemma extends_same_files (w w' : world) : files w' = files w -> extends w w'.
Proof.
  intros E p. unfold lookup_node. rewrite E. tauto.
Qed.

Lemma lookup_set_eq (w : world) (p : path) (n : node) (tr : list event) :
  p <> [] -> lookup_node (mk_world (<[p := n]> (files w)) tr) p = Some n.
Proof.
  intros Hp. unfold lookup_node. destruct p; [congruence|]. cbn.
  apply lookup_insert_eq.
Qed.

Lemma lookup_set_ne (w : world) (p q : path) (n : node) (tr : list event) :
  q <> p -> lookup_node (mk_world (<[p := n]> (files w)) tr) q = lookup_node w q.
Proof.
  intros Hq. unfold lookup_node. destruct q; [reflexivity|]. cbn.
  apply lookup_insert_ne. congruence.
Qed.

Lemma extends_set (w : world) (p : path) (n : node) (tr : list event) :
  (lookup_node w p = Some Dir -> n = Dir) ->
  extends w (mk_world (<[p := n]> (files w)) tr).
Proof.
  intros Hn q. destruct (decide (q = p)) as [->|Hq].
  - destruct p as [|a p]; [cbn; tauto|]. rewrite lookup_set_eq by discriminate.
    split; [eauto|]. intros Hd. rewrite (Hn Hd). reflexivity.
  - rewrite lookup_set_ne by exact Hq. tauto.
Qed.

Lemma parent_child (p : path) (name : string) : parent (child p name) = p.
Proof. apply removelast_last. Qed.

Lemma child_nonempty (p : path) (name : string) : child p name <> [].
Proof. unfold child. destruct p; discriminate. Qed.

Lemma child_inj (p : path) (a b : string) : child p a = child p b -> a = b.
Proof. unfold child. intros H. apply app_inj_tail in H. tauto. Qed.

(** ** pathlib *)

Lemma write_file_ok (p : path) (c : content) (w : world) :
  lookup_node w p <> Some Dir -> lookup_node w (parent p) = Some Dir ->
  write_file p c w = (written p c w, inr tt).
Proof.
  intros Hp Hd. unfold write_file. rewrite Hd.
  destruct (lookup_node w p) as [[|]|]; try reflexivity. congruence.
Qed.

Lemma write_file_inv (p : path) (c : content) (w w' : world) (r : result unit) :
  write_file p c w = (w', r) ->
  match r with
  | inr _ =>
      w' = written p c w /\ p <> []
      /\ lookup_node w p <> Some Dir /\ lookup_node w (parent p) = Some Dir
  | inl e =>
      w' = w
      /\ (e = FileNotFoundError -> lookup_node w (parent p) = None)
  end.
Proof.
  unfold write_file. intros H.
  assert (Hcase : lookup_node w p = Some Dir \/ lookup_node w p <> Some Dir)
    by (destruct (lookup_node w p) as [[|]|]; auto; right; discriminate).
  destruct Hcase as [Hd|Hn].
  - rewrite Hd in H. injection H as <- <-. split; [reflexivity|discriminate].
  - assert (H' : match lookup_node w (parent p) with
                 | Some Dir => set_node p (File c) w
                 | Some (File _) => (w, inl NotADirectoryError)
                 | None => (w, inl FileNotFoundError)
                 end = (w', r))
      by (destruct (lookup_node w p) as [[|]|]; [exact H|congruence|exact H]).
    clear H. destruct (lookup_node w (parent p)) as [[cq|]|] eqn:Eq.
    + injection H' as <- <-. split; [reflexivity|discriminate].
    + unfold set_node in H'. injection H' as <- <-.
      split; [reflexivity|]. split; [|auto].
      intros ->. apply Hn. reflexivity.
    + injection H' as <- <-. split; [reflexivity|auto].
Qed.

Lemma write_file_extends (p : path) (c : content) (w w' : world) (r : result unit) :
  write_file p c w = (w', r) -> extends w w' /\ trace w' = trace w.
Proof.
  intros H. apply write_file_inv in H. destruct r as [e|[]].
  - destruct H as [-> _]. split; [apply extends_refl|reflexivity].
  - destruct H as (-> & _ & Hn & _). split; [|reflexivity].
    apply extends_set. intros Hd. congruence.
Qed.

Lemma touch_inv (p : path) (w w' : world) (r : result unit) :
  touch p w = (w', r) ->
  extends w w' /\ trace w' = trace w
  /\ (r = inr tt -> is_Some (lookup_node w' p))
  /\ (r = inl FileNotFoundError -> lookup_node w (parent p) = None).
Proof.
  unfold touch. destruct (lookup_node w p) as [n|] eqn:Ep.
  - intros [= <- <-]. split; [apply extends_refl|]. split; [reflexivity|].
    split; [intros _; rewrite Ep; eauto|discriminate].
  - intros H. destruct (write_file_extends _ _ _ _ _ H) as [He Ht].
    apply write_file_inv in H. split; [exact He|]. split; [exact Ht|].
    destruct r as [e|[]].
    + destruct H as [-> Hf]. split; [discriminate|]. intros [= ->]. auto.
    + destruct H as (-> & Hne & _). split; [|discriminate]. intros _.
      unfold written. rewrite lookup_set_eq by exact Hne. eauto.
Qed.

Lemma stat_inv (p : path) (w w' : world) (r : result bool) :
  stat_size_is_zero p w = (w', r) ->
  w' = w /\ (is_Some (lookup_node w p) -> exists b, r = inr b).
Proof.
  unfold stat_size_is_zero. destruct (lookup_node w p) as [[c|]|];
    intros [= <- <-]; (split; [reflexivity|]); eauto.
  intros [? [=]].
Qed.

Lemma ancestors_nonempty (base p q : path) : q ∈ ancestors_from base p -> q <> [].
Proof.
  revert base. induction p as [|a p IH]; intros base; cbn [ancestors_from].
  - intros H. inversion H.
  - intros H. apply elem_of_cons in H. destruct H as [->|H].
    + apply child_nonempty.
    + eapply IH, H.
Qed.

Lemma ancestors_self (base p : path) : p <> [] -> (base ++ p) ∈ ancestors_from base p.
Proof.
  revert base. induction p as [|a p IH]; intros base Hp; [congruence|].
  cbn [ancestors_from]. destruct p as [|b p].
  - apply elem_of_cons. left. reflexivity.
  - apply elem_of_cons. right. unfold child.
    replace (base ++ a :: b :: p) with ((base ++ [a]) ++ b :: p)
      by (rewrite <- app_assoc; reflexivity).
    apply IH. discriminate.
Qed.

Lemma mkdir_each_inv (target : path) (dirs : list path) :
  forall (w w' : world) (r : result unit),
    (forall d, d ∈ dirs -> d <> []) ->
    mkdir_each target dirs w = (w', r) ->
    extends w w' /\ trace w' = trace w
    /\ (r = inr tt -> forall d, d ∈ dirs -> lookup_node w' d = Some Dir)
    /\ raised r <> Some FileNotFoundError
    /\ ((forall d c, d ∈ dirs -> lookup_node w d <> Some (File c)) -> r = inr tt).
Proof.
  induction dirs as [|d rest IH]; intros w w' r Hne; cbn [mkdir_each].
  - intros [= <- <-]. split; [apply extends_refl|]. split; [reflexivity|].
    split; [intros _ d Hd; inversion Hd|]. split; [discriminate|reflexivity].
  - unfold bind at 1.
    assert (Hrest : forall d0, d0 ∈ rest -> d0 <> [])
      by (intros d0 H0; apply Hne, elem_of_cons; auto).
    assert (Hd : d <> []) by (apply Hne, elem_of_cons; auto).
    destruct (lookup_node w d) as [[c|]|] eqn:Ed.
    + intros [= <- <-]. split; [apply extends_refl|]. split; [reflexivity|].
      split; [destruct (bool_decide _); discriminate|].
      split; [destruct (bool_decide _); discriminate|].
      intros Hok. exfalso. eapply (Hok d c); [apply elem_of_cons; auto|exact Ed].
    + intros H. destruct (IH _ _ _ Hrest H) as (He & Ht & Hs & Hf & Hok).
      split; [exact He|]. split; [exact Ht|]. split; [|split; [exact Hf|]].
      * intros Hr d0 H0. apply elem_of_cons in H0. destruct H0 as [->|H0].
        -- apply He, Ed.
        -- apply Hs; auto.
      * intros Hall. apply Hok. intros d0 c H0. apply Hall, elem_of_cons. auto.
    + unfold bind, set_node. intros H.
      destruct (IH _ _ _ Hrest H) as (He & Ht & Hs & Hf & Hok).
      assert (Hx : extends w (mk_world (<[d := Dir]> (files w)) (trace w)))
        by (apply extends_set; auto).
      split; [eapply extends_trans; eauto|]. split; [exact Ht|].
      split; [|split; [exact Hf|]].
      * intros Hr d0 H0. apply elem_of_cons in H0. destruct H0 as [->|H0].
        -- apply He. apply lookup_set_eq, Hd.
        -- apply Hs; auto.
      * intros Hall. apply Hok. intros d0 c H0.
        destruct (decide (d0 = d)) as [->|Hn].
        -- rewrite lookup_set_eq by exact Hd. discriminate.
        -- rewrite lookup_set_ne by exact Hn. apply Hall, elem_of_cons. auto.
Qed.

Lemma mkdir_p_inv (p : path) (w w' : world) (r : result unit) :
  mkdir_p p w = (w', r) ->
  extends w w' /\ trace w' = trace w
  /\ (r = inr tt -> lookup_node w' p = Some Dir)
  /\ raised r <> Some FileNotFoundError
  /\ (no_file_above w p -> r = inr tt).
Proof.
  unfold mkdir_p. intros H.
  destruct (mkdir_each_inv p _ w w' r (fun d => ancestors_nonempty [] p d) H)
    as (He & Ht & Hs & Hf & Hok).
  split; [exact He|]. split; [exact Ht|]. split; [|split; [exact Hf|]].
  - intros Hr. destruct p as [|a p]; [reflexivity|].
    apply Hs; [exact Hr|]. apply (ancestors_self [] (a :: p)). discriminate.
  - intros Hno. apply Hok. intros d c Hd. apply Hno, Hd.
Qed.

(** ** Traces *)

Lemma grows_refl (P : event -> Prop) (w w' : world) :
  trace w' = trace w -> grows P w w'.
Proof. intros E. exists []. rewrite app_nil_r. split; [exact E|constructor]. Qed.

Lemma grows_one (P : event -> Prop) (w w' : world) (e : event) :
  trace w' = trace w ++ [e] -> P e -> grows P w w'.
Proof. intros E He. exists [e]. split; [exact E|repeat constructor; exact He]. Qed.

Lemma grows_trans (P : event -> Prop) (w1 w2 w3 : world) :
  grows P w1 w2 -> grows P w2 w3 -> grows P w1 w3.
Proof.
  intros (e1 & E1 & F1) (e2 & E2 & F2). exists (e1 ++ e2). split.
  - rewrite E2, E1, app_assoc. reflexivity.
  - apply Forall_app. auto.
Qed.

Lemma grows_weaken (P Q : event -> Prop) (w w' : world) :
  (forall e, P e -> Q e) -> grows P w w' -> grows Q w w'.
Proof.
  intros HPQ (evs & E & F). exists evs. split; [exact E|].
  eapply Forall_impl; eauto.
Qed.

(** ** The external tools *)

Lemma except_ffmpeg_error_inv {A : Type} (x : outcome A) (w w' : world) (r : result A) :
  except_ffmpeg_error x w = (w', r) ->
  w' = w
  /\ (forall a, r = inr a -> x = Done a)
  /\ (raised r = Some FileNotFoundError -> x = Crashed FileNotFoundError).
Proof.
  destruct x as [a| |e]; intros [= <- <-]; (split; [reflexivity|]); split;
    try (intros a' [=]; congruence); cbn; intros [=]; congruence.
Qed.

Lemma read_node_inv (failure : exn) (p : path) (w w' : world) (r : result node) :
  read_node failure p w = (w', r) ->
  w' = w /\ (forall n, r = inr n -> lookup_node w p = Some n)
  /\ (forall e, r = inl e -> e = failure).
Proof.
  unfold read_node, of_tool. destruct (lookup_node w p); intros [= <- <-];
    (split; [reflexivity|]); split; intros ? [=]; congruence.
Qed.

Lemma run_probe_inv (t : tools) (v : path) (w w' : world) (r : result (list stream)) :
  run_probe t v w = (w', r) ->
  w' = logged (Probe v) w /\ (raised r = Some FileNotFoundError -> probe_not_found t).
Proof.
  unfold run_probe. intros H.
  apply bind_inv in H. destruct H as [(e & [=] & _) | (w1 & [] & [= <-] & H)].
  fold (logged (Probe v) w) in H.
  bind_cases H as w2 n Hn.
  { apply read_node_inv in H. destruct H as (-> & _ & He).
    split; [reflexivity|]. rewrite (He _ eq_refl). discriminate. }
  apply read_node_inv in Hn. destruct Hn as (-> & _ & _).
  apply except_ffmpeg_error_inv in H. destruct H as (-> & _ & Hf).
  split; [reflexivity|]. intros Hr. exists n. auto.
Qed.

Lemma run_whisper_inv (t : tools) (a : path) (model : string) (lang : option string)
    (w w' : world) (r : result (option (list raw_segment))) :
  run_whisper t a model lang w = (w', r) ->
  w' = logged (Whisper a model lang) w
  /\ (raised r = Some FileNotFoundError -> whisper_not_found t model lang).
Proof.
  unfold run_whisper. intros H.
  apply bind_inv in H. destruct H as [(e & [=] & _) | (w1 & [] & [= <-] & H)].
  fold (logged (Whisper a model lang) w) in H.
  bind_cases H as w2 n Hn.
  { apply read_node_inv in H. destruct H as (-> & _ & He).
    split; [reflexivity|]. rewrite (He _ eq_refl). discriminate. }
  apply read_node_inv in Hn. destruct Hn as (-> & _ & _).
  unfold lift in H. injection H as <- <-.
  split; [reflexivity|]. intros Hr. exists n.
  destruct (whisper_transcribe t model lang n); cbn in Hr; congruence.
Qed.

Lemma as_runtime_error_inv {A : Type} (m : M A) (w w' : world) (r : result A) :
  as_runtime_error m w = (w', r) ->
  raised r <> Some FileNotFoundError
  /\ exists r0, m w = (w', r0) /\ (forall a, r = inr a <-> r0 = inr a).
Proof.
  unfold as_runtime_error. destruct (m w) as [w1 [e|a]]; intros [= <- <-].
  - split; [discriminate|]. eexists. split; [reflexivity|]. split; discriminate.
  - split; [discriminate|]. eexists. split; [reflexivity|]. tauto.
Qed.

Lemma logged_extends (e : event) (w : world) : extends w (logged e w).
Proof. apply extends_same_files. reflexivity. Qed.

Lemma run_ffmpeg_audio_inv (t : tools) (v out : path) (rate : Z) (w w' : world)
    (r : result unit) :
  run_ffmpeg_audio t v out rate w = (w', r) ->
  extends w w' /\ trace w' = trace w ++ [FfmpegAudio v out rate]
  /\ (raised r = Some FileNotFoundError -> audio_tool_not_found t rate)
  /\ (r = inr tt -> is_Some (lookup_node w' out)).
Proof.
  unfold run_ffmpeg_audio. intros H.
  apply bind_inv in H. destruct H as [(e & [=] & _) | (w1 & [] & [= <-] & H)].
  fold (logged (FfmpegAudio v out rate) w) in H.
  bind_cases H as w2 n Hn.
  { apply read_node_inv in H. destruct H as (-> & _ & He).
    split; [apply logged_extends|]. split; [reflexivity|].
    rewrite (He _ eq_refl). split; discriminate. }
  apply read_node_inv in Hn. destruct Hn as (-> & _ & _).
  bind_cases H as w3 data Hd.
  { apply except_ffmpeg_error_inv in H. destruct H as (-> & _ & Hf).
    split; [apply logged_extends|]. split; [reflexivity|].
    split; [|discriminate]. intros Hr. exists n. auto. }
  apply except_ffmpeg_error_inv in Hd. destruct Hd as (-> & _ & _).
  apply as_runtime_error_inv in H. destruct H as (Hf & r0 & H & Hr).
  destruct (write_file_extends _ _ _ _ _ H) as [He Ht].
  split; [eapply extends_trans; [apply logged_extends|exact He]|].
  split; [rewrite Ht; reflexivity|]. split; [intros E; destruct (Hf E)|].
  intros ->. apply write_file_inv in H. destruct r0 as [e|[]].
  - discriminate (proj1 (Hr tt) eq_refl).
  - destruct H as (-> & Hne & _). unfold written. rewrite lookup_set_eq by exact Hne. eauto.
Qed.

Lemma write_frames_inv (d : path) (frames : list string) :
  forall (i : Z) (w w' : world) (r : result unit),
    write_frames d i frames w = (w', r) -> extends w w' /\ trace w' = trace w.
Proof.
  induction frames as [|data rest IH]; intros i w w' r; cbn [write_frames].
  - intros [= <- <-]. split; [apply extends_refl|reflexivity].
  - intros H. apply bind_inv in H.
    destruct H as [(e & H & ->) | (w1 & [] & H1 & H)].
    + apply write_file_extends in H. exact H.
    + apply write_file_extends in H1. apply IH in H.
      destruct H1 as [E1 T1], H as [E2 T2].
      split; [eapply extends_trans; eauto|congruence].
Qed.

Lemma run_ffmpeg_frames_inv (t : tools) (v d : path) (fps : float) (w w' : world)
    (r : result unit) :
  run_ffmpeg_frames t v d fps w = (w', r) ->
  extends w w' /\ trace w' = trace w ++ [FfmpegFrames v d fps]
  /\ (raised r = Some FileNotFoundError -> sampler_not_found t fps).
Proof.
  unfold run_ffmpeg_frames. intros H.
  apply bind_inv in H. destruct H as [(e & [=] & _) | (w1 & [] & [= <-] & H)].
  fold (logged (FfmpegFrames v d fps) w) in H.
  bind_cases H as w2 n Hn.
  { apply read_node_inv in H. destruct H as (-> & _ & He).
    split; [apply logged_extends|]. split; [reflexivity|].
    rewrite (He _ eq_refl). discriminate. }
  apply read_node_inv in Hn. destruct Hn as (-> & _ & _).
  bind_cases H as w3 frames Hd.
  { apply except_ffmpeg_error_inv in H. destruct H as (-> & _ & Hf).
    split; [apply logged_extends|]. split; [reflexivity|].
    intros Hr. exists n. auto. }
  apply except_ffmpeg_error_inv in Hd. destruct Hd as (-> & _ & _).
  apply as_runtime_error_inv in H. destruct H as (Hf & r0 & H & Hr).
  destruct (write_frames_inv _ _ _ _ _ _ H) as [He Ht].
  split; [eapply extends_trans; [apply logged_extends|exact He]|].
  split; [rewrite Ht; reflexivity|intros E; destruct (Hf E)].
Qed.

(** ** The steps of a computation *)

Lemma bind_ret {A B : Type} (a : A) (k : A -> M B) (w : world) :
  bind (ret a) k w = k a w.
Proof. reflexivity. Qed.

Lemma bind_log {B : Type} (e : event) (k : unit -> M B) (w : world) :
  bind (log e) k w = k tt (logged e w).
Proof. reflexivity. Qed.

Lemma bind_exists {B : Type} (p : path) (k : bool -> M B) (w : world) :
  bind (path_exists p) k w = k (bool_decide (is_Some (lookup_node w p))) w.
Proof. reflexivity. Qed.

Lemma logged_lookup (e : event) (w : world) (p : path) :
  lookup_node (logged e w) p = lookup_node w p.
Proof. reflexivity. Qed.

Lemma grows_logged (P : event -> Prop) (e : event) (w : world) :
  P e -> grows P w (logged e w).
Proof. intros He. eapply grows_one; [reflexivity|exact He]. Qed.

(** ** extract_audio.py *)

Lemma extract_audio_inv (t : tools) (v out : path) (rate : Z) (w w' : world)
    (r : result path) :
  is_Some (lookup_node w v) ->
  extract_audio t v (Some out) rate w = (w', r) ->
  extends w w' /\ grows audio_event w w'
  /\ (raised r = Some FileNotFoundError ->
      probe_not_found t \/ audio_tool_not_found t rate)
  /\ (forall a, r = inr a -> a = out /\ is_Some (lookup_node w' out)).
Proof.
  intros Hv. unfold extract_audio.
  rewrite bind_exists, bool_decide_true by exact Hv. cbn [negb].
  rewrite bind_ret. intros H.
  bind_cases H as w1 [] H1.
  { apply mkdir_p_inv in H. destruct H as (He & Ht & _ & Hf & _).
    split; [exact He|]. split; [apply grows_refl, Ht|].
    split; [absurd_exn Hf|discriminate]. }
  apply mkdir_p_inv in H1. destruct H1 as (He1 & Ht1 & Hd1 & _ & _).
  specialize (Hd1 eq_refl).
  bind_cases H as w2 probe H2.
  { apply run_probe_inv in H. destruct H as [-> Hf].
    split; [eapply extends_trans; [exact He1|apply logged_extends]|].
    split; [|split; [intros E; left; exact (Hf E)|discriminate]].
    eapply grows_trans; [apply grows_refl, Ht1|apply grows_logged; split; reflexivity]. }
  apply run_probe_inv in H2. destruct H2 as [-> _].
  assert (G2 : grows audio_event w (logged (Probe v) w1)).
  { eapply grows_trans; [apply grows_refl, Ht1|apply grows_logged; split; reflexivity]. }
  assert (E2 : extends w (logged (Probe v) w1)).
  { eapply extends_trans; [exact He1|apply logged_extends]. }
  destruct (existsb (is_codec "audio") probe); cbn [negb] in H.
  - bind_cases H as w3 [] H3.
    { apply run_ffmpeg_audio_inv in H. destruct H as (He & Ht & Hf & _).
      split; [eapply extends_trans; eauto|].
      split; [|split; [intros E; right; exact (Hf E)|discriminate]].
      eapply grows_trans; [exact G2|]. eapply grows_one; [exact Ht|split; reflexivity]. }
    apply run_ffmpeg_audio_inv in H3. destruct H3 as (He & Ht & _ & Hs).
    injection H as <- <-.
    split; [eapply extends_trans; eauto|].
    split; [|split; [no_exn|]].
    + eapply grows_trans; [exact G2|]. eapply grows_one; [exact Ht|split; reflexivity].
    + intros a [= <-]. auto.
  - unfold warn in H. rewrite bind_log in H.
    set (w3 := logged (Warn (NoAudioStream v)) (logged (Probe v) w1)) in *.
    assert (G3 : grows audio_event w w3).
    { eapply grows_trans; [exact G2|apply grows_logged; split; reflexivity]. }
    assert (E3 : extends w w3).
    { eapply extends_trans; [exact E2|apply logged_extends]. }
    bind_cases H as w4 [] H4.
    { apply touch_inv in H. destruct H as (He & Ht & _ & Hf).
      split; [eapply extends_trans; eauto|].
      split; [eapply grows_trans; [exact G3|apply grows_refl, Ht]|].
      split; [|discriminate].
      intros [= ->]. specialize (Hf eq_refl).
      unfold w3 in Hf. rewrite !logged_lookup in Hf. congruence. }
    apply touch_inv in H4. destruct H4 as (He & Ht & Hs & _).
    injection H as <- <-.
    split; [eapply extends_trans; eauto|].
    split; [eapply grows_trans; [exact G3|apply grows_refl, Ht]|].
    split; [no_exn|]. intros a [= <-]. auto.
Qed.

(** ** extract_frames.py *)

Lemma get_video_fps_inv (t : tools) (v : path) (w w' : world) (r : result float) :
  is_Some (lookup_node w v) ->
  get_video_fps t v w = (w', r) ->
  w' = logged (Probe v) w
  /\ (raised r = Some FileNotFoundError -> probe_not_found t).
Proof.
  intros Hv. unfold get_video_fps.
  rewrite bind_exists, bool_decide_true by exact Hv. cbn [negb]. intros H.
  bind_cases H as w1 probe H1.
  { apply run_probe_inv in H. exact H. }
  apply run_probe_inv in H1. destruct H1 as [-> _].
  destruct (List.filter (is_codec "video") probe) as [|s rest].
  - injection H as <- <-. split; [reflexivity|no_exn].
  - unfold of_tool in H. destruct (stream_rate t s); injection H as <- <-;
      split; try reflexivity; no_exn.
Qed.

Lemma extract_frames_inv (t : tools) (v d : path) (fps : float) (w w' : world)
    (r : result (list path * Z)) :
  is_Some (lookup_node w v) ->
  extract_frames t v d fps w = (w', r) ->
  extends w w' /\ grows (sampler_event v d fps) w w'
  /\ (raised r = Some FileNotFoundError -> sampler_not_found t fps)
  /\ (forall x, r = inr x ->
        trace w' = trace w ++ [FfmpegFrames v d fps]
        /\ x = (glob_frames d w', Z.of_nat (length (glob_frames d w')))).
Proof.
  intros Hv. unfold extract_frames.
  rewrite bind_exists, bool_decide_true by exact Hv. cbn [negb]. intros H.
  bind_cases H as w1 [] H1.
  { apply mkdir_p_inv in H. destruct H as (He & Ht & _ & Hf & _).
    split; [exact He|]. split; [apply grows_refl, Ht|].
    split; [absurd_exn Hf|discriminate]. }
  apply mkdir_p_inv in H1. destruct H1 as (He1 & Ht1 & _ & _ & _).
  bind_cases H as w2 [] H2.
  { apply run_ffmpeg_frames_inv in H. destruct H as (He & Ht & Hf).
    split; [eapply extends_trans; eauto|]. split; [|split; [exact Hf|discriminate]].
    eapply grows_one; [rewrite Ht, Ht1; reflexivity|left; reflexivity]. }
  apply run_ffmpeg_frames_inv in H2. destruct H2 as (He & Ht & _).
  unfold bind, ret in H. injection H as <- <-.
  split; [eapply extends_trans; eauto|].
  split; [eapply grows_one; [rewrite Ht, Ht1; reflexivity|left; reflexivity]|].
  split; [no_exn|]. intros x [= <-]. rewrite Ht, Ht1. auto.
Qed.

(** ** align.py: [transcribe_audio] *)

Lemma transcribe_audio_inv (t : tools) (a : path) (model : string)
    (lang : option string) (w w' : world) (r : result (list Segment.t)) :
  is_Some (lookup_node w a) ->
  transcribe_audio t a model lang w = (w', r) ->
  files w' = files w /\ grows not_frames w w'
  /\ (raised r = Some FileNotFoundError -> whisper_not_found t model lang).
Proof.
  intros Ha. unfold transcribe_audio.
  rewrite bind_exists, bool_decide_true by exact Ha. cbn [negb]. intros H.
  bind_cases H as w1 empty H1.
  { apply stat_inv in H. destruct H as [-> Hs]. destruct (Hs Ha) as [b [=]]. }
  apply stat_inv in H1. destruct H1 as [-> _].
  destruct empty.
  - unfold warn in H. rewrite bind_log in H. injection H as <- <-.
    split; [reflexivity|]. split; [apply grows_logged; reflexivity|no_exn].
  - bind_cases H as w2 res H2.
    + apply run_whisper_inv in H. destruct H as [-> Hf].
      split; [reflexivity|]. split; [apply grows_logged; reflexivity|exact Hf].
    + apply run_whisper_inv in H2. destruct H2 as [-> _].
      injection H as <- <-.
      split; [reflexivity|]. split; [apply grows_logged; reflexivity|no_exn].
Qed.

(** ** align.py: [process_video] *)

Lemma aligned_or_empty_eq (segs : list Segment.t) (vf fps : float) (w : world) :
  aligned_or_empty segs vf fps w = (w, align_frames_to_transcript segs vf fps).
Proof. destruct segs; reflexivity. Qed.

Lemma child_not_self (p : path) (name : string) : child p name <> p.
Proof.
  unfold child. intros H. apply (f_equal length) in H.
  rewrite length_app in H. cbn in H. lia.
Qed.

Lemma written_lookup_eq (p : path) (c : content) (w : world) :
  p <> [] -> lookup_node (written p c w) p = Some (File c).
Proof. intros Hp. unfold written. apply lookup_set_eq, Hp. Qed.

Lemma written_lookup_ne (p q : path) (c : content) (w : world) :
  q <> p -> lookup_node (written p c w) q = lookup_node w q.
Proof. intros Hq. unfold written. apply lookup_set_ne, Hq. Qed.

Lemma finish_run_inv (t : tools) (v out : path) (fps : float) (audio : path)
    (segs : list Segment.t) (w w' : world) (r : result (list AlignmentEntry.t)) :
  is_Some (lookup_node w v) -> lookup_node w out = Some Dir ->
  finish_run t v out fps audio segs w = (w', r) ->
  extends w w' /\ grows (sampler_event v (child out "frames") fps) w w'
  /\ (raised r = Some FileNotFoundError ->
      probe_not_found t \/ sampler_not_found t fps)
  /\ (forall alignment, r = inr alignment ->
        exists w3 n vf,
          extract_frames t v (child out "frames") fps w
          = (w3, inr (glob_frames (child out "frames") w3, n))
          /\ n = Z.of_nat (length (glob_frames (child out "frames") w3))
          /\ trace w3 = trace w ++ [FfmpegFrames v (child out "frames") fps]
          /\ get_video_fps t v w3 = (logged (Probe v) w3, inr vf)
          /\ align_frames_to_transcript segs vf fps = inr alignment
          /\ w' = written (child out "metadata.json")
                    (MetadataJson
                       (RunMetadata.mk v audio (child out "frames") n vf fps))
                    (written (child out "alignment.json") (AlignmentJson alignment)
                       (logged (Probe v) w3))).
Proof.
  intros Hv Hout. unfold finish_run.
  change (match segs with [] => ret [] | _ :: _ => lift (align_frames_to_transcript segs ?vf fps) end)
    with (aligned_or_empty segs vf fps).
  intros H.
  bind_cases H as w3 [paths n] H3.
  { apply extract_frames_inv in H; [|exact Hv]. destruct H as (He & Hg & Hf & _).
    split; [exact He|]. split; [exact Hg|].
    split; [intros E; right; exact (Hf E)|discriminate]. }
  pose proof H3 as H3'.
  apply extract_frames_inv in H3; [|exact Hv]. destruct H3 as (He3 & Hg3 & _ & Hx).
  destruct (Hx _ eq_refl) as [Ht3 [= -> ->]]. clear Hx.
  assert (Hv3 : is_Some (lookup_node w3 v)) by (apply He3, Hv).
  bind_cases H as w4 vf H4.
  { apply get_video_fps_inv in H; [|exact Hv3]. destruct H as [-> Hf].
    split; [eapply extends_trans; [exact He3|apply logged_extends]|].
    split; [eapply grows_trans; [exact Hg3|apply grows_logged; right; reflexivity]|].
    split; [intros E; left; exact (Hf E)|discriminate]. }
  pose proof H4 as H4'.
  apply get_video_fps_inv in H4; [|exact Hv3]. destruct H4 as [-> _].
  set (w4 := logged (Probe v) w3) in *.
  assert (He4 : extends w w4)
    by (eapply extends_trans; [exact He3|apply logged_extends]).
  assert (Hg4 : grows (sampler_event v (child out "frames") fps) w w4)
    by (eapply grows_trans; [exact Hg3|apply grows_logged; right; reflexivity]).
  bind_cases H as w5 alignment H5.
  { rewrite aligned_or_empty_eq in H. injection H as <- H.
    split; [exact He4|]. split; [exact Hg4|]. split; [|discriminate].
    apply align_error_kind in H. cbn. intros [= ->].
    destruct H; discriminate. }
  rewrite aligned_or_empty_eq in H5. injection H5 as <- Hal.
  bind_cases H as w6 [] H6.
  { apply write_file_inv in H. destruct H as [-> Hf].
    split; [exact He4|]. split; [exact Hg4|]. split; [|discriminate].
    cbn. intros [= ->]. specialize (Hf eq_refl). rewrite parent_child in Hf.
    rewrite (proj2 (He4 out) Hout) in Hf. discriminate. }
  pose proof (write_file_extends _ _ _ _ _ H6) as [He6 Ht6].
  apply write_file_inv in H6. destruct H6 as (-> & _).
  set (w6 := written (child out "alignment.json") (AlignmentJson alignment) w4) in *.
  bind_cases H as w7 [] H7.
  { pose proof (write_file_extends _ _ _ _ _ H) as [He7 Ht7].
    apply write_file_inv in H. destruct H as [-> Hf].
    split; [eapply extends_trans; eauto|].
    split; [eapply grows_trans; [exact Hg4|apply grows_refl, Ht6]|].
    split; [|discriminate].
    cbn. intros [= ->]. specialize (Hf eq_refl). rewrite parent_child in Hf.
    rewrite (proj2 (He6 out) (proj2 (He4 out) Hout)) in Hf. discriminate. }
  pose proof (write_file_extends _ _ _ _ _ H7) as [He7 Ht7].
  apply write_file_inv in H7. destruct H7 as (-> & _).
  injection H as <- <-.
  split; [eapply extends_trans; [exact He4|eapply extends_trans; eauto]|].
  split; [eapply grows_trans; [exact Hg4|apply grows_refl; rewrite Ht7, Ht6; reflexivity]|].
  split; [no_exn|]. intros al [= <-].
  exists w3, (Z.of_nat (length (glob_frames (child out "frames") w3))), vf.
  repeat split; auto.
Qed.

Lemma finish_run_ok (t : tools) (v out : path) (fps : float) (audio : path)
    (segs : list Segment.t) (w w3 : world) (paths : list path) (n : Z) (vf : float)
    (alignment : list AlignmentEntry.t) :
  extract_frames t v (child out "frames") fps w = (w3, inr (paths, n)) ->
  get_video_fps t v w3 = (logged (Probe v) w3, inr vf) ->
  align_frames_to_transcript segs vf fps = inr alignment ->
  lookup_node w3 out = Some Dir ->
  lookup_node w3 (child out "alignment.json") <> Some Dir ->
  lookup_node w3 (child out "metadata.json") <> Some Dir ->
  finish_run t v out fps audio segs w
  = (written (child out "metadata.json")
       (MetadataJson (RunMetadata.mk v audio (child out "frames") n vf fps))
       (written (child out "alignment.json") (AlignmentJson alignment)
          (logged (Probe v) w3)),
     inr alignment).
Proof.
  intros H3 H4 Hal Hout Ha Hm. unfold finish_run.
  change (match segs with [] => ret [] | _ :: _ => lift (align_frames_to_transcript segs ?vf fps) end)
    with (aligned_or_empty segs vf fps).
  rewrite (bind_ok _ _ _ _ _ H3). cbn iota beta.
  rewrite (bind_ok _ _ _ _ _ H4).
  rewrite (bind_ok _ _ _ _ _ (eq_trans (aligned_or_empty_eq _ _ _ _)
                                (f_equal (pair _) Hal))).
  assert (Hne : child out "metadata.json" <> child out "alignment.json")
    by (intros E; apply child_inj in E; discriminate).
  rewrite (bind_ok _ _ _ _ _
             (write_file_ok (child out "alignment.json") (AlignmentJson alignment)
                (logged (Probe v) w3) Ha
                (eq_trans (f_equal _ (parent_child _ _)) Hout))).
  erewrite bind_ok; [reflexivity|].
  apply write_file_ok.
  - rewrite written_lookup_ne by exact Hne. exact Hm.
  - rewrite parent_child, written_lookup_ne by (apply not_eq_sym, child_not_self).
    exact Hout.
Qed.

Lemma audio_event_not_frames (e : event) : audio_event e -> not_frames e.
Proof. intros [_ H]. exact H. Qed.

Lemma audio_event_not_whisper (e : event) : audio_event e -> not_whisper e.
Proof. intros [H _]. exact H. Qed.

Lemma sampler_event_not_whisper (v d : path) (fps : float) (e : event) :
  sampler_event v d fps e -> not_whisper e.
Proof. intros [-> | ->]; reflexivity. Qed.

Lemma sampler_event_call (v d : path) (fps : float) (e : event) :
  sampler_event v d fps e -> sampler_call_is v d fps e.
Proof. intros [-> | ->]; [intros _; reflexivity|discriminate]. Qed.

Lemma not_frames_call (v d : path) (fps : float) (e : event) :
  not_frames e -> sampler_call_is v d fps e.
Proof. unfold not_frames, sampler_call_is. congruence. Qed.

Lemma process_video_inv (t : tools) (v out : path) (model : string) (fps : float)
    (lang : option string) (w w' : world) (r : result (list AlignmentEntry.t)) :
  is_Some (lookup_node w v) ->
  process_video t v out model fps lang w = (w', r) ->
  extends w w' /\ grows (sampler_call_is v (child out "frames") fps) w w'
  /\ (raised r = Some FileNotFoundError -> tool_not_found t model lang fps)
  /\ (forall w0, mkdir_p out w = (w0, inr tt) -> lookup_node w' out = Some Dir)
  /\ (forall alignment, r = inr alignment ->
        exists w0 w1 audio empty w2 segs,
          mkdir_p out w = (w0, inr tt)
          /\ extract_audio t v (Some (child out "audio.wav")) 16000 w0 = (w1, inr audio)
          /\ grows audio_event w w1
          /\ stat_size_is_zero audio w1 = (w1, inr empty)
          /\ (if empty
              then w2 = logged (Warn (NoAudioContent v)) w1 /\ segs = []
              else transcribe_audio t audio model lang w1 = (w2, inr segs))
          /\ grows not_frames w w2
          /\ lookup_node w2 out = Some Dir /\ is_Some (lookup_node w2 v)
          /\ finish_run t v out fps audio segs w2 = (w', inr alignment)).
Proof.
  intros Hv. unfold process_video.
  rewrite bind_exists, bool_decide_true by exact Hv. cbn [negb]. intros H.
  set (P := sampler_call_is v (child out "frames") fps).
  assert (HP : forall e, not_frames e -> P e) by (intros e; apply not_frames_call).
  bind_cases H as w0 [] H0.
  { pose proof H as H'. apply mkdir_p_inv in H. destruct H as (He & Ht & _ & Hf & _).
    split; [exact He|]. split; [apply grows_refl, Ht|]. split; [absurd_exn Hf|].
    split; [|discriminate]. intros w0 E. rewrite E in H'. discriminate. }
  pose proof H0 as H0'.
  apply mkdir_p_inv in H0. destruct H0 as (He0 & Ht0 & Hd0 & _ & _).
  specialize (Hd0 eq_refl).
  assert (Hv0 : is_Some (lookup_node w0 v)) by (apply He0, Hv).
  assert (Haudio : forall w1 r1,
             extract_audio t v (Some (child out "audio.wav")) 16000 w0 = (w1, r1) ->
             grows audio_event w w1).
  { intros w1 r1 H1. apply extract_audio_inv in H1; [|exact Hv0].
    destruct H1 as (_ & (evs & E & F) & _). exists evs. rewrite E, Ht0. auto. }
  bind_cases H as w1 audio H1.
  { pose proof (Haudio _ _ H) as Hg.
    apply extract_audio_inv in H; [|exact Hv0]. destruct H as (He & _ & Hf & _).
    split; [eapply extends_trans; eauto|].
    split; [eapply grows_weaken; [|exact Hg]; intros e0 He0'; apply HP, He0'|].
    split; [intros E; destruct (Hf E); [left|right; left]; assumption|].
    split; [|discriminate]. intros _ _. apply He, Hd0. }
  pose proof H1 as H1'. pose proof (Haudio _ _ H1) as Hg1'.
  apply extract_audio_inv in H1; [|exact Hv0]. destruct H1 as (He1 & _ & _ & Ha).
  destruct (Ha _ eq_refl) as [-> Haud]. clear Ha.
  assert (Hg1 : grows not_frames w w1)
    by (eapply grows_weaken; [apply audio_event_not_frames|exact Hg1']).
  assert (E1 : extends w w1) by (eapply extends_trans; eauto).
  bind_cases H as w1' empty Hs.
  { apply stat_inv in H. destruct H as [-> Hs]. destruct (Hs Haud) as [b [=]]. }
  pose proof Hs as Hs'. apply stat_inv in Hs. destruct Hs as [-> _].
  bind_cases H as w2 segs H2.
  { destruct empty.
    - unfold warn in H. rewrite bind_log in H. discriminate.
    - apply transcribe_audio_inv in H; [|exact Haud]. destruct H as (Hfiles & Hg & Hf).
      split; [eapply extends_trans; [exact E1|apply extends_same_files, Hfiles]|].
      split; [eapply grows_weaken; [exact HP|eapply grows_trans; eauto]|].
      split; [intros E; right; right; right; exact (Hf E)|]. split; [|discriminate].
      intros _ _. unfold lookup_node. rewrite Hfiles. apply (proj2 (He1 out) Hd0). }
  assert (Hw2 : files w2 = files w1 /\ grows not_frames w1 w2).
  { destruct empty.
    - unfold warn in H2. rewrite bind_log in H2. injection H2 as <- _.
      split; [reflexivity|apply grows_logged; reflexivity].
    - apply transcribe_audio_inv in H2; [|exact Haud]. tauto. }
  destruct Hw2 as [Hfiles Hg2].
  assert (Hg2' : grows not_frames w w2) by (eapply grows_trans; eauto).
  assert (E2 : extends w w2)
    by (eapply extends_trans; [exact E1|apply extends_same_files, Hfiles]).
  assert (Hout2 : lookup_node w2 out = Some Dir).
  { unfold lookup_node. rewrite Hfiles. apply (proj2 (He1 out) Hd0). }
  assert (Hv2 : is_Some (lookup_node w2 v)) by (apply E2, Hv).
  pose proof H as Hfin.
  apply finish_run_inv in H; [|exact Hv2|exact Hout2].
  destruct H as (He & Hg & Hf & _).
  split; [eapply extends_trans; eauto|]. split.
  { eapply grows_trans.
    - eapply grows_weaken; [exact HP|exact Hg2'].
    - eapply grows_weaken; [apply sampler_event_call|exact Hg]. }
  split; [intros E; destruct (Hf E); [left|right; right; left]; assumption|].
  split; [intros _ _; apply He, Hout2|].
  intros alignment ->. exists w0, w1, (child out "audio.wav"), empty, w2, segs.
  split; [exact H0'|]. split; [exact H1'|]. split; [exact Hg1'|]. split; [exact Hs'|].
  split.
  { destruct empty; [|exact H2].
    unfold warn in H2. rewrite bind_log in H2. injection H2 as <- <-. auto. }
  auto.
Qed.

(** ** to_srt.py: [alignment_to_srt] *)

Lemma srt_text_error_kind (record : list AlignmentEntry.t) (e : exn) :
  srt_text record = inl e -> e = ValueError \/ e = OverflowError.
Proof.
  unfold srt_text, srt_lines. generalize 1.
  assert (Hts : forall x e0, _format_timestamp x = inl e0 ->
                             e0 = ValueError \/ e0 = OverflowError).
  { intros x e0. unfold _format_timestamp, Py.round.
    destruct (Prim2SF (x * 1000)); cbn; intros [= <-]; auto. }
  induction record as [|entry rest IH]; intros idx.
  - discriminate.
  - rewrite srt_loop_cons. unfold srt_block.
    destruct (_format_timestamp (AlignmentEntry.start_time entry)) as [e1|st] eqn:E1.
    { cbn. intros [= <-]. eapply Hts, E1. }
    destruct (_format_timestamp (AlignmentEntry.end_time entry)) as [e2|en] eqn:E2.
    { cbn. intros [= <-]. eapply Hts, E2. }
    cbn [bind_result]. specialize (IH (idx + 1)).
    destruct (srt_loop (idx + 1) rest []) as [e3|out]; cbn in *; [|discriminate].
    exact IH.
Qed.

Lemma alignment_to_srt_inv (json srt : path) (w w' : world) (r : result path) :
  is_Some (lookup_node w json) ->
  alignment_to_srt json srt w = (w', r) ->
  extends w w' /\ trace w' = trace w /\ raised r <> Some FileNotFoundError
  /\ (forall record,
        lookup_node w json = Some (File (AlignmentJson record)) ->
        no_file_above w (parent srt) ->
        lookup_node w' (parent srt) = Some Dir)
  /\ (forall p, r = inr p ->
        p = srt
        /\ exists record lines,
            lookup_node w json = Some (File (AlignmentJson record))
            /\ srt_lines record = inr lines
            /\ lookup_node w' srt = Some (File (Raw (PyStr.join PyStr.newline lines)))).
Proof.
  intros Hj. unfold alignment_to_srt.
  rewrite bind_exists, bool_decide_true by exact Hj. cbn [negb]. intros H.
  bind_cases H as w1 doc H1.
  { unfold json_load in H. destruct Hj as [n Hn]. rewrite Hn in H.
    destruct n as [[d|rec|md]|]; try discriminate; injection H as <- <-;
      (split; [apply extends_refl|]); (split; [reflexivity|]);
      (split; [discriminate|]); (split; [|discriminate]);
      intros rec; rewrite Hn; discriminate. }
  assert (Hdoc : w1 = w /\ lookup_node w json = Some (File doc)
                 /\ match doc with Raw _ => False | _ => True end).
  { unfold json_load in H1. destruct (lookup_node w json) as [[[d|rec|md]|]|];
      try discriminate; injection H1 as <- <-; auto. }
  destruct Hdoc as (-> & Hlook & Hjson). clear H1.
  bind_cases H as w2 [] H2.
  { pose proof H as H'. apply mkdir_p_inv in H. destruct H as (He & Ht & _ & Hf & Hok).
    split; [exact He|]. split; [exact Ht|]. split; [exact Hf|]. split; [|discriminate].
    intros rec _ Hno. specialize (Hok Hno). discriminate. }
  apply mkdir_p_inv in H2. destruct H2 as (He2 & Ht2 & Hd2 & _ & _).
  specialize (Hd2 eq_refl).
  bind_cases H as w3 text H3.
  { assert (w' = w2 /\ e <> FileNotFoundError) as [-> Hn].
    { destruct doc as [d|rec|md]; try (injection H as <- <-; split; [reflexivity|discriminate]).
      unfold lift in H. injection H as <- H. split; [reflexivity|].
      apply srt_text_error_kind in H. destruct H; subst; discriminate. }
    split; [exact He2|]. split; [exact Ht2|]. split; [cbn; congruence|].
    split; [intros; exact Hd2|discriminate]. }
  assert (Hrec : w3 = w2 /\ exists record, doc = AlignmentJson record
                                           /\ srt_text record = inr text).
  { destruct doc as [d|rec|md]; try discriminate.
    unfold lift in H3. injection H3 as <- H3. eauto. }
  destruct Hrec as (-> & record & -> & Htext). clear H3.
  bind_cases H as w4 [] H4.
  { pose proof (write_file_extends _ _ _ _ _ H) as [He Ht].
    apply write_file_inv in H. destruct H as [-> Hf].
    split; [exact He2|]. split; [exact Ht2|]. split; [|split; [intros; exact Hd2|discriminate]].
    cbn. intros [= ->]. rewrite Hd2 in Hf. specialize (Hf eq_refl). discriminate. }
  pose proof (write_file_extends _ _ _ _ _ H4) as [He4 Ht4].
  apply write_file_inv in H4. destruct H4 as (-> & Hne & _).
  injection H as <- <-.
  split; [eapply extends_trans; eauto|]. split; [congruence|]. split; [discriminate|].
  split; [intros; apply He4, Hd2|].
  intros p [= <-]. split; [reflexivity|].
  unfold srt_text in Htext.
  destruct (srt_lines record) as [e|lines] eqn:El; [discriminate|].
  injection Htext as <-. exists record, lines.
  split; [exact Hlook|]. split; [exact El|]. apply written_lookup_eq, Hne.
Qed.

(** * Runs into a directory without leftovers *)

(** ** What the file operations leave alone *)

Lemma footprint_preserves (d : path) (w w' : world) :
  footprint d nowhere w w' -> preserves w w'.
Proof.
  intros H p n Hp. destruct (H p) as [E | [(E & _) | []]]; congruence.
Qed.

Lemma footprint_refl (d : path) (S : path -> Prop) (w w' : world) :
  files w' = files w -> footprint d S w w'.
Proof.
  intros H q. left. unfold lookup_node. rewrite H. reflexivity.
Qed.

Lemma footprint_trans (d : path) (S : path -> Prop) (w1 w2 w3 : world) :
  footprint d S w1 w2 -> footprint d S w2 w3 -> footprint d S w1 w3.
Proof.
  intros H1 H2 q.
  destruct (H1 q) as [E1 | [(N1 & D1 & P1) | T1]];
    destruct (H2 q) as [E2 | [(N2 & D2 & P2) | T2]];
    try (right; right; assumption);
    [left; congruence
    |right; left; repeat split; congruence
    |right; left; repeat split; congruence
    |congruence].
Qed.

Lemma ancestors_prefix (p : path) :
  forall base q, q ∈ ancestors_from base p -> q `prefix_of` (base ++ p).
Proof.
  induction p as [|name rest IH]; intros base q H; cbn in H.
  - inversion H.
  - apply elem_of_cons in H. destruct H as [-> | H].
    + exists rest. unfold child. rewrite <- app_assoc. reflexivity.
    + apply IH in H. unfold child in H. rewrite <- app_assoc in H. exact H.
Qed.

Lemma mkdir_each_footprint (target : path) (dirs : list path) :
  forall (w w' : world) (r : result unit),
    (forall d, d ∈ dirs -> d <> []) ->
    mkdir_each target dirs w = (w', r) ->
    forall q,
      lookup_node w' q = lookup_node w q
      \/ (lookup_node w q = None /\ lookup_node w' q = Some Dir /\ q ∈ dirs).
Proof.
  induction dirs as [|d rest IH]; intros w w' r Hne H q; cbn in H.
  - injection H as <- <-. auto.
  - assert (Hd : d <> []) by (apply Hne; left).
    assert (Hrest : forall d', d' ∈ rest -> d' <> []) by (intros; apply Hne; right; auto).
    unfold bind in H at 1. destruct (lookup_node w d) as [[c|]|] eqn:E.
    + injection H as <- <-. auto.
    + destruct (IH _ _ _ Hrest H q) as [? | (? & ? & ?)]; auto.
      right. repeat split; auto. right; auto.
    + unfold bind, set_node in H.
      destruct (IH _ _ _ Hrest H q) as [E1 | (N1 & D1 & I1)].
      * destruct (decide (q = d)) as [-> | Hq].
        -- rewrite lookup_set_eq in E1 by exact Hd.
           right. repeat split; auto. left.
        -- rewrite lookup_set_ne in E1 by exact Hq. auto.
      * destruct (decide (q = d)) as [-> | Hq].
        -- rewrite lookup_set_eq in N1 by exact Hd. discriminate.
        -- rewrite lookup_set_ne in N1 by exact Hq.
           right. repeat split; auto. right; auto.
Qed.

Lemma mkdir_p_footprint (p : path) (S : path -> Prop) (w w' : world) (r : result unit) :
  mkdir_p p w = (w', r) -> footprint p S w w'.
Proof.
  intros H q.
  destruct (mkdir_each_footprint p (ancestors_from [] p) w w' r
              (fun d => ancestors_nonempty [] p d) H q) as [E | (N & D & I)]; auto.
  right. left. repeat split; auto. apply (ancestors_prefix p [] q I).
Qed.

Lemma mkdir_p_preserves (p : path) (w w' : world) (r : result unit) :
  mkdir_p p w = (w', r) -> preserves w w'.
Proof.
  intros H. apply (footprint_preserves p). eapply mkdir_p_footprint, H.
Qed.

Lemma parent_length (p : path) : length (parent p) = Nat.pred (length p).
Proof.
  unfold parent. induction p as [|a p IH]; [reflexivity|].
  destruct p as [|b p]; [reflexivity|].
  change (removelast (a :: b :: p)) with (a :: removelast (b :: p)).
  cbn [length] in *. rewrite IH. reflexivity.
Qed.

Lemma parent_not_above (p : path) : p <> [] -> ~ p `prefix_of` parent p.
Proof.
  intros Hp [k Hk]. apply (f_equal (@length string)) in Hk.
  rewrite length_app, parent_length in Hk.
  destruct p; [congruence|]. cbn in Hk. lia.
Qed.

Lemma mkdir_p_parent_lookup (p : path) (w w' : world) (r : result unit) :
  mkdir_p (parent p) w = (w', r) -> lookup_node w' p = lookup_node w p.
Proof.
  intros H. destruct (mkdir_p_footprint _ nowhere _ _ _ H p) as [E | [(N & D & P) | []]];
    [exact E|].
  destruct p as [|a p]; [discriminate N|].
  exfalso. revert P. apply parent_not_above. discriminate.
Qed.

(** *** The external tools, run on a file that is there *)

Lemma run_probe_eq (t : tools) (v : path) (w : world) (video : node) :
  lookup_node w v = Some video ->
  run_probe t v w = except_ffmpeg_error (ffprobe t video) (logged (Probe v) w).
Proof.
  intros Hv. unfold run_probe. rewrite bind_log.
  unfold bind, read_node. rewrite logged_lookup, Hv. reflexivity.
Qed.

(** ** Frame names *)

Lemma string_app_cons (c : ascii) (a b : string) :
  String c a +:+ b = String c (a +:+ b).
Proof. reflexivity. Qed.

Lemma string_length_app (a b : string) :
  String.length (a +:+ b) = (String.length a + String.length b)%nat.
Proof.
  induction a as [|c a IH]; [reflexivity|].
  rewrite string_app_cons. cbn [String.length]. rewrite IH. reflexivity.
Qed.

Lemma string_app_assoc (a b c : string) : (a +:+ b) +:+ c = a +:+ (b +:+ c).
Proof.
  induction a as [|x a IH]; [reflexivity|].
  rewrite !string_app_cons, IH. reflexivity.
Qed.

Lemma string_app_inv_tail (s : string) :
  forall x y : string, x +:+ s = y +:+ s -> x = y.
Proof.
  induction x as [|c x IH]; intros [|c' y] H.
  - reflexivity.
  - apply (f_equal String.length) in H. rewrite !string_length_app in H.
    cbn [String.length] in H. lia.
  - apply (f_equal String.length) in H. rewrite !string_length_app in H.
    cbn [String.length] in H. lia.
  - rewrite !string_app_cons in H. injection H as -> H. f_equal. apply IH, H.
Qed.

Lemma string_app_inv_head (s x y : string) : s +:+ x = s +:+ y -> x = y.
Proof.
  induction s as [|c s IH]; [auto|].
  rewrite !string_app_cons. intros [= H]. apply IH, H.
Qed.

Lemma substring_all (s : string) : substring 0 (String.length s) s = s.
Proof.
  induction s as [|c s IH]; [reflexivity|].
  cbn [String.length substring]. rewrite IH. reflexivity.
Qed.

Lemma substring_suffix (a b : string) :
  substring (String.length a) (String.length b) (a +:+ b) = b.
Proof.
  induction a as [|c a IH]; [apply substring_all|].
  rewrite string_app_cons. cbn [String.length substring]. exact IH.
Qed.

Lemma frame_name_matches (i : Z) : is_frame_name (frame_name i) = true.
Proof.
  unfold is_frame_name, frame_name.
  set (x := PyStr.format_0d 4 i).
  assert (L : String.length ("frame_" +:+ x +:+ ".jpg")
              = (String.length ("frame_" +:+ x) + 4)%nat).
  { rewrite <- string_app_assoc, string_length_app. reflexivity. }
  rewrite L. apply andb_true_intro. split; [apply andb_true_intro; split|].
  - apply Nat.leb_le. rewrite string_length_app. cbn [String.length]. lia.
  - change ("frame_" +:+ x +:+ ".jpg")
      with (String "f" (String "r" (String "a" (String "m" (String "e" (String "_"
              (x +:+ ".jpg"))))))).
    destruct (x +:+ ".jpg"); reflexivity.
  - replace (String.length ("frame_" +:+ x) + 4 - 4)%nat
      with (String.length ("frame_" +:+ x)) by lia.
    rewrite <- string_app_assoc.
    pose proof (substring_suffix ("frame_" +:+ x) ".jpg") as E.
    change (String.length ".jpg") with 4%nat in E. rewrite E. reflexivity.
Qed.

(** The number a decimal numeral denotes, leading zeros allowed. *)
Lemma digits_decoded (k : nat) (n : N) :
  option_map N.of_uint (NilEmpty.uint_of_string (PyStr.zeros k +:+ PyStr.digits n))
  = Some n.
Proof.
  induction k as [|k IH].
  - change (PyStr.zeros 0 +:+ PyStr.digits n) with (PyStr.digits n).
    unfold PyStr.digits.
    assert (Hn : N.to_uint n <> Decimal.Nil).
    { destruct n as [|p]; [discriminate|apply DecimalPos.Unsigned.to_uint_nonnil]. }
    pose proof (NilZero.usu (N.to_uint n) Hn) as H.
    unfold NilZero.uint_of_string in H.
    destruct (NilZero.string_of_uint (N.to_uint n)); [discriminate|].
    rewrite H. cbn [option_map]. rewrite DecimalN.Unsigned.of_to. reflexivity.
  - change (PyStr.zeros (S k) +:+ PyStr.digits n)
      with (String "0" (PyStr.zeros k +:+ PyStr.digits n)).
    cbn [NilEmpty.uint_of_string].
    destruct (NilEmpty.uint_of_string (PyStr.zeros k +:+ PyStr.digits n)) as [d|];
      [|discriminate]. exact IH.
Qed.

Lemma format_0d_inj (width : nat) (i j : Z) :
  0 <= i -> 0 <= j -> PyStr.format_0d width i = PyStr.format_0d width j -> i = j.
Proof.
  intros Hi Hj. unfold PyStr.format_0d, PyStr.zfill.
  rewrite !(proj2 (Z.ltb_ge _ 0)) by assumption. intros H.
  pose proof (digits_decoded (width - String.length (PyStr.digits (Z.to_N i))) (Z.to_N i)) as A.
  pose proof (digits_decoded (width - String.length (PyStr.digits (Z.to_N j))) (Z.to_N j)) as B.
  rewrite H in A. rewrite A in B. injection B as B. lia.
Qed.

Lemma frame_name_inj (i j : Z) :
  0 <= i -> 0 <= j -> frame_name i = frame_name j -> i = j.
Proof.
  intros Hi Hj H. unfold frame_name in H.
  apply string_app_inv_head, string_app_inv_tail in H.
  eapply format_0d_inj; eauto.
Qed.

Lemma frame_in_dir (d : path) (i : Z) : is_frame_in d (child d (frame_name i)) = true.
Proof.
  unfold is_frame_in. rewrite parent_child, bool_decide_true by reflexivity.
  unfold child. rewrite last_snoc. apply frame_name_matches.
Qed.

(** ** The frames found by the glob *)

Lemma frame_in_nonempty (d p : path) : is_frame_in d p = true -> p <> [].
Proof. intros H ->. unfold is_frame_in in H. cbn in H. rewrite andb_false_r in H. discriminate. Qed.

Lemma lookup_node_files (w : world) (p : path) :
  p <> [] -> lookup_node w p = files w !! p.
Proof. destruct p; [congruence|reflexivity]. Qed.

Lemma glob_frames_perm (d : path) (w : world) :
  glob_frames d w
  ≡ₚ filter (fun p => is_frame_in d p = true) (map fst (map_to_list (files w))).
Proof. unfold glob_frames. apply merge_sort_Permutation. Qed.

Lemma glob_no_frames (d : path) (w : world) :
  (forall p, is_frame_in d p = true -> lookup_node w p = None) ->
  glob_frames d w = [].
Proof.
  intros H. apply Permutation_nil_r. rewrite glob_frames_perm.
  apply Permutation_nil_r.
  destruct (filter _ _) as [|p l] eqn:E; [reflexivity|exfalso].
  assert (Hp : p ∈ filter (fun p => is_frame_in d p = true)
                      (map fst (map_to_list (files w))))
    by (rewrite E; left).
  apply list_elem_of_filter in Hp. destruct Hp as [Hf Hp].
  apply list_elem_of_fmap in Hp. destruct Hp as ([q n] & -> & Hq).
  apply elem_of_map_to_list in Hq. cbn in Hf.
  specialize (H _ Hf). rewrite lookup_node_files in H by (eapply frame_in_nonempty, Hf).
  cbn in H. congruence.
Qed.

Lemma glob_written_fresh (d p : path) (c : content) (w : world) :
  files w !! p = None -> is_frame_in d p = true ->
  glob_frames d (written p c w) ≡ₚ p :: glob_frames d w.
Proof.
  intros Hn Hf. rewrite !glob_frames_perm. unfold written. cbn [files].
  rewrite (map_to_list_insert (files w) p (File c) Hn). cbn [map fst].
  rewrite filter_cons_True by exact Hf. reflexivity.
Qed.

Lemma write_frames_glob (d : path) (frames : list string) :
  forall (i : Z) (w w' : world),
    0 <= i ->
    (forall j, i <= j -> lookup_node w (child d (frame_name j)) = None) ->
    write_frames d i frames w = (w', inr tt) ->
    length (glob_frames d w') = (length (glob_frames d w) + length frames)%nat.
Proof.
  induction frames as [|data rest IH]; intros i w w' Hi Hfree; cbn [write_frames].
  - intros [= <-]. cbn. lia.
  - intros H. apply bind_inv in H.
    destruct H as [(e & _ & [=]) | (w1 & [] & H1 & H)].
    apply write_file_inv in H1. destruct H1 as (-> & Hne & _).
    apply IH in H; [|lia|].
    + rewrite H. rewrite glob_written_fresh.
      * cbn [length]. lia.
      * rewrite <- lookup_node_files by exact Hne. apply Hfree. lia.
      * apply frame_in_dir.
    + intros j Hj. rewrite written_lookup_ne.
      * apply Hfree. lia.
      * intros E. apply child_inj, frame_name_inj in E; lia.
Qed.

Lemma mkdir_p_no_frames (d : path) (w w' : world) (r : result unit) :
  mkdir_p d w = (w', r) ->
  (forall p, is_frame_in d p = true -> lookup_node w p = None) ->
  forall p, is_frame_in d p = true -> lookup_node w' p = None.
Proof.
  intros H Hfree p Hp.
  destruct (mkdir_p_footprint d nowhere w w' r H p) as [E | [(_ & _ & P) | []]].
  - rewrite E. apply Hfree, Hp.
  - exfalso. unfold is_frame_in in Hp. apply andb_prop in Hp. destruct Hp as [Hd Hl].
    apply bool_decide_eq_true in Hd.
    destruct P as [k Hk]. pose proof (parent_length p) as L. rewrite Hd, Hk in L.
    rewrite length_app in L.
    destruct p as [|a p]; [discriminate Hl|]. cbn in L. lia.
Qed.

(** In a directory that holds no frame file yet, [extract_frames] counts
    the frames ffmpeg made. *)
Lemma extract_frames_fresh (t : tools) (v d : path) (fps : float) (w w' : world)
    (paths : list path) (n : Z) (video : node) :
  lookup_node w v = Some video ->
  (forall p, is_frame_in d p = true -> lookup_node w p = None) ->
  extract_frames t v d fps w = (w', inr (paths, n)) ->
  exists frames,
    ffmpeg_frames t video fps = Done frames /\ n = Z.of_nat (length frames).
Proof.
  intros Hv Hfree. unfold extract_frames.
  rewrite bind_exists, bool_decide_true by (rewrite Hv; eauto). cbn [negb]. intros H.
  apply bind_inv in H. destruct H as [(e & _ & [=]) | (w1 & [] & H1 & H)].
  pose proof (mkdir_p_no_frames _ _ _ _ H1 Hfree) as Hfree1.
  pose proof (mkdir_p_preserves _ _ _ _ H1 _ _ Hv) as Hv1.
  apply bind_inv in H. destruct H as [(e & _ & [=]) | (w2 & [] & H2 & H)].
  unfold bind, ret in H. injection H as <- <- <-.
  unfold run_ffmpeg_frames in H2. rewrite bind_log in H2.
  apply bind_inv in H2. destruct H2 as [(e & _ & [=]) | (w3 & n3 & H3 & H2)].
  apply read_node_inv in H3. destruct H3 as (-> & Hn3 & _).
  specialize (Hn3 _ eq_refl). rewrite logged_lookup, Hv1 in Hn3. injection Hn3 as <-.
  apply bind_inv in H2. destruct H2 as [(e & _ & [=]) | (w4 & frames & H4 & H2)].
  apply except_ffmpeg_error_inv in H4. destruct H4 as (-> & Hd & _).
  specialize (Hd _ eq_refl). exists frames. split; [exact Hd|].
  apply as_runtime_error_inv in H2. destruct H2 as (_ & r0 & H2 & Hr).
  rewrite (proj1 (Hr tt) eq_refl) in H2.
  apply write_frames_glob in H2; [|lia|].
  - rewrite H2, (glob_no_frames d (logged _ w1)); [reflexivity|].
    intros p Hp. rewrite logged_lookup. apply Hfree1, Hp.
  - intros j _. rewrite logged_lookup. apply Hfree1, frame_in_dir.
Qed.

(** ** What [extract_audio] touches *)

Lemma write_file_footprint (d p : path) (c : content) (w w' : world) (r : result unit) :
  write_file p c w = (w', r) -> footprint d (eq p) w w'.
Proof.
  intros H q. apply write_file_inv in H. destruct r as [e|[]].
  - destruct H as [-> _]. auto.
  - destruct H as (-> & _). destruct (decide (q = p)) as [-> | Hq]; [auto|].
    left. apply written_lookup_ne, Hq.
Qed.

Lemma logged_footprint (d : path) (S : path -> Prop) (e : event) (w : world) :
  footprint d S w (logged e w).
Proof. apply footprint_refl. reflexivity. Qed.

Lemma extract_audio_footprint (t : tools) (v out : path) (rate : Z) (w w' : world)
    (r : result path) :
  extract_audio t v (Some out) rate w = (w', r) ->
  footprint (parent out) (eq out) w w'.
Proof.
  unfold extract_audio. rewrite bind_exists.
  destruct (bool_decide (is_Some (lookup_node w v))); cbn [negb].
  2: { intros [= <- _]. apply footprint_refl. reflexivity. }
  rewrite bind_ret. intros H.
  bind_cases H as w1 [] H1; [eapply mkdir_p_footprint, H|].
  eapply footprint_trans; [eapply mkdir_p_footprint, H1|].
  bind_cases H as w2 probe H2.
  { apply run_probe_inv in H. destruct H as [-> _]. apply logged_footprint. }
  apply run_probe_inv in H2. destruct H2 as [-> _].
  eapply footprint_trans; [apply logged_footprint|].
  destruct (existsb (is_codec "audio") probe); cbn [negb] in H.
  - assert (F : forall w3 r3, run_ffmpeg_audio t v out rate (logged (Probe v) w1) = (w3, r3) ->
                footprint (parent out) (eq out) (logged (Probe v) w1) w3).
    { intros w3 r3 H3. unfold run_ffmpeg_audio in H3. rewrite bind_log in H3.
      eapply footprint_trans; [apply logged_footprint|].
      bind_cases H3 as w4 n H4.
      { apply read_node_inv in H3. destruct H3 as (-> & _). apply footprint_refl. reflexivity. }
      apply read_node_inv in H4. destruct H4 as (-> & _).
      bind_cases H3 as w5 data H5.
      { apply except_ffmpeg_error_inv in H3. destruct H3 as (-> & _).
        apply footprint_refl. reflexivity. }
      apply except_ffmpeg_error_inv in H5. destruct H5 as (-> & _).
      apply as_runtime_error_inv in H3. destruct H3 as (_ & r0 & H3 & _).
      eapply write_file_footprint, H3. }
    bind_cases H as w3 [] H3; [eapply F, H|].
    injection H as <- _. eapply F, H3.
  - unfold warn in H. rewrite bind_log in H.
    eapply footprint_trans; [apply logged_footprint|].
    assert (F : forall w3 r3, touch out (logged (Warn (NoAudioStream v)) (logged (Probe v) w1))
                              = (w3, r3) ->
                footprint (parent out) (eq out)
                  (logged (Warn (NoAudioStream v)) (logged (Probe v) w1)) w3).
    { intros w3 r3. unfold touch. destruct (lookup_node _ out).
      - intros [= <- _]. apply footprint_refl. reflexivity.
      - apply write_file_footprint. }
    bind_cases H as w3 [] H3; [eapply F, H|].
    injection H as <- _. eapply F, H3.
Qed.

(** With no audio stream and no file at the output path, the artifact is
    the empty placeholder. *)
Lemma extract_audio_placeholder (t : tools) (v out : path) (rate : Z) (w w' : world)
    (a : path) (video : node) (streams : list stream) :
  lookup_node w v = Some video ->
  ffprobe t video = Done streams ->
  existsb (is_codec "audio") streams = false ->
  lookup_node w out = None ->
  extract_audio t v (Some out) rate w = (w', inr a) ->
  lookup_node w' out = Some (File (Raw ""))
  /\ trace w' = trace w ++ [Probe v; Warn (NoAudioStream v)].
Proof.
  intros Hv Hp Hs Ho. unfold extract_audio.
  rewrite bind_exists, bool_decide_true by (rewrite Hv; eauto). cbn [negb].
  rewrite bind_ret. intros H.
  apply bind_inv in H. destruct H as [(e & _ & [=]) | (w1 & [] & H1 & H)].
  pose proof (mkdir_p_preserves _ _ _ _ H1 _ _ Hv) as Hv1.
  pose proof (mkdir_p_parent_lookup _ _ _ _ H1) as Ho1. rewrite Ho in Ho1.
  destruct (mkdir_p_inv _ _ _ _ H1) as (_ & Ht1 & _).
  assert (E : run_probe t v w1 = (logged (Probe v) w1, inr streams))
    by (rewrite (run_probe_eq t v w1 video Hv1), Hp; reflexivity).
  rewrite (bind_ok _ _ _ _ _ E), Hs in H. cbn [negb] in H.
  unfold warn in H. rewrite bind_log in H.
  apply bind_inv in H. destruct H as [(e & _ & [=]) | (w2 & [] & H2 & H)].
  injection H as <- _.
  unfold touch in H2. rewrite !logged_lookup, Ho1 in H2.
  apply write_file_inv in H2. destruct H2 as (-> & Hne & _).
  split; [apply written_lookup_eq, Hne|].
  cbn [written logged trace]. rewrite Ht1, <- app_assoc. reflexivity.
Qed.

(** ** A run into a directory without leftovers *)

Lemma child_not_prefix (p : path) (name : string) : ~ child p name `prefix_of` p.
Proof.
  intros [k Hk]. apply (f_equal length) in Hk. unfold child in Hk.
  rewrite !length_app in Hk. cbn in Hk. lia.
Qed.

Lemma footprint_no_frames (out : path) (S : path -> Prop) (w w' : world) :
  footprint out S w w' ->
  (forall q, S q -> parent q <> child out "frames") ->
  (forall p, is_frame_in (child out "frames") p = true -> lookup_node w p = None) ->
  forall p, is_frame_in (child out "frames") p = true -> lookup_node w' p = None.
Proof.
  intros F HS Hfree p Hp.
  assert (Hd : parent p = child out "frames").
  { unfold is_frame_in in Hp. apply andb_prop in Hp. destruct Hp as [Hd _].
    apply bool_decide_eq_true in Hd. exact Hd. }
  destruct (F p) as [E | [(_ & _ & P) | T]].
  - rewrite E. apply Hfree, Hp.
  - exfalso. destruct P as [k Hk]. pose proof (parent_length p) as L.
    rewrite Hd, Hk in L. unfold child in L. rewrite !length_app in L. cbn in L. lia.
  - destruct (HS _ T Hd).
Qed.

(** When the output directory holds no [audio.wav] and no frame file, a
    successful run of [process_video] writes into [metadata.json] the
    number of frames the sampler made; on a video without audio stream it
    does not call whisper and returns the empty record. *)
Lemma fresh_directory_run (t : tools) (video out : path) (model : string)
    (fps : float) (language : option string) (w w' : world)
    (alignment : list AlignmentEntry.t) (vnode : node) :
  lookup_node w video = Some vnode ->
  lookup_node w (child out "audio.wav") = None ->
  (forall p, is_frame_in (child out "frames") p = true -> lookup_node w p = None) ->
  process_video t video out model fps language w = (w', inr alignment) ->
  (exists frames metadata,
      ffmpeg_frames t vnode fps = Done frames
      /\ lookup_node w' (child out "metadata.json")
         = Some (File (MetadataJson metadata))
      /\ RunMetadata.frame_count metadata = Z.of_nat (length frames))
  /\ (forall streams,
        ffprobe t vnode = Done streams ->
        existsb (is_codec "audio") streams = false ->
        alignment = [] /\ grows not_whisper w w').
Proof.
  intros Hv Ha Hfree H.
  apply process_video_inv in H; [|rewrite Hv; eauto].
  destruct H as (_ & _ & _ & _ & H).
  destruct (H _ eq_refl)
    as (w0 & w1 & audio & empty & w2 & segs & H0 & H1 & _ & Hs & H2 & _ & Hout & Hv2' & Hf).
  clear H.
  set (a := child out "audio.wav") in *.
  pose proof (mkdir_p_preserves _ _ _ _ H0 _ _ Hv) as Hv0.
  pose proof (mkdir_p_footprint out nowhere _ _ _ H0) as F0.
  destruct (mkdir_p_inv _ _ _ _ H0) as (_ & Ht0 & _).
  assert (Ha0 : lookup_node w0 a = None).
  { destruct (F0 a) as [E | [(_ & _ & P) | []]]; [congruence|].
    destruct (child_not_prefix _ _ P). }
  pose proof (extract_audio_footprint _ _ _ _ _ _ _ H1) as F1.
  unfold a in F1 at 1. rewrite parent_child in F1. fold a in F1.
  assert (Haud : audio = a).
  { apply extract_audio_inv in H1; [|rewrite Hv0; eauto].
    destruct H1 as (_ & _ & _ & Hx). apply (Hx _ eq_refl). }
  subst audio.
  assert (Hfiles : forall p, lookup_node w2 p = lookup_node w1 p).
  { destruct empty.
    - destruct H2 as [-> _]. intros p. apply logged_lookup.
    - apply transcribe_audio_inv in H2.
      + destruct H2 as (E & _). intros p. unfold lookup_node. rewrite E. reflexivity.
      + apply extract_audio_inv in H1; [|rewrite Hv0; eauto].
        destruct H1 as (_ & _ & _ & Hx). apply (Hx _ eq_refl). }
  assert (Hv2 : lookup_node w2 video = Some vnode).
  { rewrite Hfiles. destruct (F1 video) as [E | [(N & _) | T]]; [congruence|congruence|].
    rewrite T in Ha0. congruence. }
  assert (Hfree2 : forall p, is_frame_in (child out "frames") p = true ->
                             lookup_node w2 p = None).
  { intros p Hp. rewrite Hfiles. revert p Hp.
    eapply (footprint_no_frames out (eq a)); [exact F1| |].
    - intros q <-. unfold a. rewrite parent_child. apply not_eq_sym, child_not_self.
    - eapply (footprint_no_frames out nowhere); [exact F0|intros q []|exact Hfree]. }
  pose proof Hf as Hf'.
  apply finish_run_inv in Hf; [|exact Hv2'|exact Hout].
  destruct Hf as (_ & Hg & _ & Hf).
  destruct (Hf _ eq_refl) as (w3 & n & vf & H3 & _ & _ & _ & Hal & ->). clear Hf.
  split.
  - destruct (extract_frames_fresh _ _ _ _ _ _ _ _ _ Hv2 Hfree2 H3) as (frames & Hd & ->).
    exists frames. eexists. split; [exact Hd|].
    split; [apply written_lookup_eq, child_nonempty|reflexivity].
  - intros streams Hp Hno.
    destruct (extract_audio_placeholder _ _ _ _ _ _ _ _ _ Hv0 Hp Hno Ha0 H1) as [Hl Ht1].
    unfold stat_size_is_zero in Hs. rewrite Hl in Hs. injection Hs as <-.
    cbn in H2. destruct H2 as [-> ->].
    rewrite align_nil in Hal. injection Hal as <-. split; [reflexivity|].
    eapply grows_trans; [|eapply grows_weaken; [apply sampler_event_not_whisper|exact Hg]].
    exists [Probe video; Warn (NoAudioStream video); Warn (NoAudioContent video)].
    split.
    + cbn [logged trace]. rewrite Ht1, Ht0, <- app_assoc. reflexivity.
    + repeat constructor.
Qed.

(** * Statements about the alignment engine *)

(** C1 (amended).  For a positive [extraction_fps] and segments with
    [0 <= start_time <= end_time] whose two products with [extraction_fps]
    are finite floats, [align_frames_to_transcript] returns, for each
    segment, the entry with [start_frame = floor (start_time * extraction_fps)]
    and [end_frame = floor (end_time * extraction_fps)], the products being
    the float products; in particular [{1.5, 2.5}] at rate [1.0] gives
    frames [1] and [2], and [{0.2, 0.9}] at rate [2.0] gives [0] and [1]. *)
Theorem align_floor_frames :
  (forall (segments : list Segment.t) (video_fps extraction_fps : float),
      (0 <? extraction_fps)%float = true ->
      Forall well_formed segments ->
      Forall (finite_products extraction_fps) segments ->
      align_frames_to_transcript segments video_fps extraction_fps
      = inr (map (floor_entry video_fps extraction_fps) segments))
  /\ (forall video_fps : float,
        align_frames_to_transcript [Segment.mk "hello" 1.5 2.5] video_fps 1.0
        = inr [AlignmentEntry.mk "hello" 1.5 2.5 1 2 video_fps])
  /\ (forall video_fps : float,
        align_frames_to_transcript [Segment.mk "hi" 0.2 0.9] video_fps 2.0
        = inr [AlignmentEntry.mk "hi" 0.2 0.9 0 1 video_fps]).
Proof.
  split; [|split; intros video_fps; reflexivity].
  intros segments video_fps extraction_fps Hfps Hwf Hfin.
  apply align_map. rewrite Forall_forall in *. intros seg Hin.
  apply align_segment_floor; auto.
Qed.

Lemma align_floor_frames_witness :
  (0 <? 2.0)%float = true
  /\ Forall well_formed [Segment.mk "hi" 0.2 0.9]
  /\ Forall (finite_products 2.0) [Segment.mk "hi" 0.2 0.9]
  /\ align_frames_to_transcript [Segment.mk "hi" 0.2 0.9] 29.97 2.0
     = inr (map (floor_entry 29.97 2.0) [Segment.mk "hi" 0.2 0.9]).
Proof.
  assert (H1 : (0 <? 2.0)%float = true) by reflexivity.
  assert (H2 : Forall well_formed [Segment.mk "hi" 0.2 0.9])
    by (repeat constructor).
  assert (H3 : Forall (finite_products 2.0) [Segment.mk "hi" 0.2 0.9])
    by (repeat constructor).
  split; [exact H1|]. split; [exact H2|]. split; [exact H3|].
  exact (proj1 align_floor_frames [Segment.mk "hi" 0.2 0.9] 29.97%float 2.0%float
           H1 H2 H3).
Defined.

(** C1, as stated, fails where a product overflows: [1e308 * 10.0] is
    [inf] and [int(inf)] raises. *)
Lemma align_floor_frames_overflow :
  (0 <? 10.0)%float = true
  /\ well_formed (Segment.mk "late" 1e308 1e308)
  /\ align_frames_to_transcript [Segment.mk "late" 1e308 1e308] 30.0 10.0
     = inl OverflowError.
Proof. repeat split. Qed.

(** C2 (amended).  [align_frames_to_transcript] has no guard on
    [extraction_fps].  It raises exactly when some product
    [start_time * extraction_fps] or [end_time * extraction_fps] is NaN or
    infinite, and then with the [ValueError] or [OverflowError] of [int];
    for [extraction_fps <= 0] and segments with non-negative times and
    finite products it returns one entry per segment, each with
    [start_frame = end_frame = 0]. *)
Theorem align_no_rate_guard :
  forall (segments : list Segment.t) (video_fps extraction_fps : float),
    ((exists e, align_frames_to_transcript segments video_fps extraction_fps = inl e)
     <-> ~ Forall (finite_products extraction_fps) segments)
    /\ (forall e,
          align_frames_to_transcript segments video_fps extraction_fps = inl e ->
          e = ValueError \/ e = OverflowError)
    /\ ((extraction_fps <=? 0)%float = true ->
        Forall (fun seg => (0 <=? Segment.start_time seg)%float = true
                           /\ (0 <=? Segment.end_time seg)%float = true) segments ->
        Forall (finite_products extraction_fps) segments ->
        align_frames_to_transcript segments video_fps extraction_fps
        = inr (map (zero_entry video_fps) segments)).
Proof.
  intros segments video_fps extraction_fps. split; [|split].
  - rewrite (align_returns video_fps). split.
    + intros [e He] [out Hout]. congruence.
    + intros Hn.
      destruct (align_frames_to_transcript segments video_fps extraction_fps)
        as [e|out]; [eauto|]. exfalso. apply Hn. eauto.
  - intros e He. eapply align_error_kind, He.
  - intros Hfps Hnn Hfin. apply align_map. rewrite Forall_forall in *.
    intros seg Hin. destruct (Hnn seg Hin).
    apply align_segment_nonpos; auto.
Qed.

Lemma align_no_rate_guard_witness :
  (-1.0 <=? 0)%float = true
  /\ align_frames_to_transcript [Segment.mk "hi" 0.2 0.9] 29.97 (-1.0)
     = inr (map (zero_entry 29.97) [Segment.mk "hi" 0.2 0.9]).
Proof.
  split; [reflexivity|].
  apply (proj2 (proj2 (align_no_rate_guard [Segment.mk "hi" 0.2 0.9] 29.97 (-1.0))));
    [reflexivity|repeat constructor|repeat constructor].
Defined.

(** C2, as stated, fails: a non-positive rate is not rejected. *)
Lemma align_accepts_nonpositive_rate :
  (-1.0 <=? 0)%float = true
  /\ (0.0 <=? 0)%float = true
  /\ align_frames_to_transcript [Segment.mk "hello" 1.5 2.5] 30.0 (-1.0)
     = inr [AlignmentEntry.mk "hello" 1.5 2.5 0 0 30.0]
  /\ align_frames_to_transcript [Segment.mk "hello" 1.5 2.5] 30.0 0.0
     = inr [AlignmentEntry.mk "hello" 1.5 2.5 0 0 30.0].
Proof. repeat split. Qed.

(** C3.  Whenever [align_frames_to_transcript] returns, which it does as
    soon as every product is finite, the output has one entry per input
    segment and the [i]-th entry is the one computed from the [i]-th
    segment alone, carrying its text and times. *)
Theorem align_length_order :
  forall (segments : list Segment.t) (video_fps extraction_fps : float),
    (Forall (finite_products extraction_fps) segments ->
     exists out, align_frames_to_transcript segments video_fps extraction_fps = inr out)
    /\ (forall out,
          align_frames_to_transcript segments video_fps extraction_fps = inr out ->
          length out = length segments
          /\ forall (i : nat) (seg : Segment.t),
              segments !! i = Some seg ->
              exists entry,
                out !! i = Some entry
                /\ align_segment video_fps extraction_fps seg = inr entry
                /\ AlignmentEntry.text entry = Segment.text seg
                /\ AlignmentEntry.start_time entry = Segment.start_time seg
                /\ AlignmentEntry.end_time entry = Segment.end_time seg).
Proof.
  intros segments video_fps extraction_fps. split.
  - apply align_returns.
  - intros out Hout. apply align_Forall2 in Hout. split.
    + symmetry. eapply Forall2_length, Hout.
    + intros i seg Hi.
      destruct (Forall2_lookup_l _ _ _ _ _ Hout Hi) as (entry & Ho & Hs).
      exists entry. pose proof (align_segment_fields _ _ _ _ Hs). tauto.
Qed.

Lemma align_length_order_witness :
  exists out,
    align_frames_to_transcript
      [Segment.mk "hello" 1.5 2.5; Segment.mk "hi" 0.2 0.9] 30.0 2.0 = inr out
    /\ length out = 2%nat.
Proof.
  destruct (proj1 (align_length_order
                     [Segment.mk "hello" 1.5 2.5; Segment.mk "hi" 0.2 0.9] 30.0 2.0))
    as [out Hout]; [repeat constructor|].
  exists out. split; [exact Hout|].
  exact (proj1 (proj2 (align_length_order _ _ _) out Hout)).
Defined.

(** C4.  Every entry [align_frames_to_transcript] returns has
    [0 <= start_frame <= end_frame], whatever the segments and the rate; a
    segment with [end_time < start_time] is not rejected: with finite
    products it yields an entry, clamped like the others. *)
Theorem align_frames_clamped :
  forall (segments : list Segment.t) (video_fps extraction_fps : float),
    (forall out,
        align_frames_to_transcript segments video_fps extraction_fps = inr out ->
        Forall (fun entry =>
                  0 <= AlignmentEntry.start_frame entry
                  /\ AlignmentEntry.start_frame entry <= AlignmentEntry.end_frame entry)
               out)
    /\ (forall seg : Segment.t,
          (Segment.end_time seg <? Segment.start_time seg)%float = true ->
          finite_products extraction_fps seg ->
          exists entry,
            align_frames_to_transcript [seg] video_fps extraction_fps = inr [entry]
            /\ 0 <= AlignmentEntry.start_frame entry
            /\ AlignmentEntry.start_frame entry <= AlignmentEntry.end_frame entry).
Proof.
  intros segments video_fps extraction_fps. split.
  - intros out Hout. apply align_Forall2 in Hout.
    induction Hout as [|seg entry rest out Hs _ IH]; constructor; [|exact IH].
    pose proof (align_segment_fields _ _ _ _ Hs). tauto.
  - intros seg _ Hfin.
    destruct (proj1 (align_segment_finite video_fps _ _) Hfin) as [entry Hs].
    exists entry. rewrite align_cons, Hs. cbn. split; [reflexivity|].
    pose proof (align_segment_fields _ _ _ _ Hs). tauto.
Qed.

Lemma align_frames_clamped_witness :
  (2.0 <? 5.0)%float = true
  /\ exists entry,
      align_frames_to_transcript [Segment.mk "swapped" 5.0 2.0] 30.0 1.0 = inr [entry]
      /\ 0 <= AlignmentEntry.start_frame entry
      /\ AlignmentEntry.start_frame entry <= AlignmentEntry.end_frame entry.
Proof.
  split; [reflexivity|].
  apply (proj2 (align_frames_clamped [] 30.0 1.0) (Segment.mk "swapped" 5.0 2.0));
    [reflexivity|repeat constructor].
Defined.

(** C6.  Two runs on the same segments and the same [extraction_fps] with
    different [video_fps] either raise the same exception or return lists
    with the same frame intervals, entry by entry; every returned entry
    carries exactly the [video_fps] that was passed. *)
Theorem align_video_fps_independent :
  forall (segments : list Segment.t) (video_fps1 video_fps2 extraction_fps : float),
    match align_frames_to_transcript segments video_fps1 extraction_fps,
          align_frames_to_transcript segments video_fps2 extraction_fps with
    | inr out1, inr out2 =>
        map frame_interval out1 = map frame_interval out2
        /\ Forall (fun entry => AlignmentEntry.video_fps entry = video_fps1) out1
        /\ Forall (fun entry => AlignmentEntry.video_fps entry = video_fps2) out2
    | inl e1, inl e2 => e1 = e2
    | _, _ => False
    end.
Proof.
  intros segments v1 v2 fps. induction segments as [|seg rest IH].
  - rewrite !align_nil. repeat split; constructor.
  - rewrite !align_cons. unfold align_segment.
    destruct (Py.int (Segment.start_time seg * fps)) as [e|i]; [reflexivity|].
    destruct (Py.int (Segment.end_time seg * fps)) as [e|j]; [reflexivity|].
    cbn [bind_result].
    destruct (align_frames_to_transcript rest v1 fps) as [e1|out1],
      (align_frames_to_transcript rest v2 fps) as [e2|out2]; cbn; try tauto.
    destruct IH as (Hm & H1 & H2). repeat split.
    + f_equal. exact Hm.
    + constructor; [reflexivity|exact H1].
    + constructor; [reflexivity|exact H2].
Qed.

(** * Statements about the subtitle renderer *)

(** C8 (amended).  For a non-negative timestamp whose millisecond count
    [seconds * 1000] is a finite float, [_format_timestamp] returns the
    token [HH:MM:SS,mmm]: two digits for the minutes and for the seconds,
    three for the milliseconds, the hours zero-padded to two digits (more
    from 100 hours on), the four fields adding up to the millisecond count
    rounded to the nearest integer; in particular [75.34] gives
    ["00:01:15,340"]. *)
Theorem format_timestamp_token :
  (forall seconds : float,
      (0 <=? seconds)%float = true ->
      Py.is_finite (seconds * 1000)%float = true ->
      exists h m s ms,
        0 <= h /\ 0 <= m < 60 /\ 0 <= s < 60 /\ 0 <= ms < 1000
        /\ _format_timestamp seconds = inr (timestamp_token h m s ms)
        /\ (Qabs (Py.value (seconds * 1000)%float - inject_Z (total_millis h m s ms))
            <= 1 # 2)%Q)
  /\ _format_timestamp 75.34 = inr "00:01:15,340".
Proof.
  split; [|reflexivity]. intros seconds Hs Hfin.
  destruct (round_millis seconds Hs Hfin) as (millis & Hr & Hm & Hnear).
  destruct (format_timestamp_of_millis seconds millis Hr Hm)
    as (h & m & s & ms & Hh & Hmi & Hse & Hms & Htot & Hfmt).
  exists h, m, s, ms. rewrite Htot. auto 10.
Qed.

Lemma format_timestamp_token_witness :
  (0 <=? 3661.25)%float = true
  /\ Py.is_finite (3661.25 * 1000)%float = true
  /\ exists h m s ms,
      0 <= h /\ 0 <= m < 60 /\ 0 <= s < 60 /\ 0 <= ms < 1000
      /\ _format_timestamp 3661.25 = inr (timestamp_token h m s ms)
      /\ (Qabs (Py.value (3661.25 * 1000)%float - inject_Z (total_millis h m s ms))
          <= 1 # 2)%Q.
Proof.
  assert (H1 : (0 <=? 3661.25)%float = true) by reflexivity.
  assert (H2 : Py.is_finite (3661.25 * 1000)%float = true) by reflexivity.
  split; [exact H1|]. split; [exact H2|].
  exact (proj1 format_timestamp_token 3661.25%float H1 H2).
Defined.

(** C8, as stated, fails where the millisecond count overflows:
    [1e306 * 1000] is [inf] and [round(inf)] raises. *)
Lemma format_timestamp_overflow :
  (0 <=? 1e306)%float = true
  /\ _format_timestamp 1e306 = inl OverflowError.
Proof. split; reflexivity. Qed.

(** C9.  When the rendering loop of [alignment_to_srt] returns, which it
    does as soon as every timestamp has a finite millisecond count, each
    entry contributes four lines, in order: its 1-based index, the timing
    line [start --> end], the text line, which is ["[inaudible]"] when the
    text is empty or whitespace only and the stripped text otherwise, and
    an empty line; the file written is these lines joined by newlines. *)
Theorem srt_blocks :
  forall alignment : list AlignmentEntry.t,
    (Forall finite_millis alignment -> exists lines, srt_lines alignment = inr lines)
    /\ (forall lines,
          srt_lines alignment = inr lines ->
          srt_text alignment = inr (PyStr.join PyStr.newline lines)
          /\ length lines = (4 * length alignment)%nat
          /\ forall i entry, alignment !! i = Some entry -> block_at 1 lines i entry)
    /\ (forall (json srt : path) (w w' : world) (p : path),
          lookup_node w json = Some (File (AlignmentJson alignment)) ->
          alignment_to_srt json srt w = (w', inr p) ->
          exists lines,
            srt_lines alignment = inr lines
            /\ lookup_node w' srt = Some (File (Raw (PyStr.join PyStr.newline lines)))).
Proof.
  intros alignment. split; [|split].
  - apply srt_loop_returns.
  - intros lines H. split; [unfold srt_text; rewrite H; reflexivity|].
    apply srt_loop_spec, H.
  - intros json srt w w' p Hl H.
    apply alignment_to_srt_inv in H; [|rewrite Hl; eauto].
    destruct H as (_ & _ & _ & _ & H).
    destruct (H p eq_refl) as (_ & record & lines & Hl' & Hlines & Hw).
    rewrite Hl in Hl'. injection Hl' as <-. eauto.
Qed.

Lemma srt_blocks_witness :
  exists lines,
    srt_lines Demo.record = inr lines
    /\ lines !! 2%nat = Some "[inaudible]"
    /\ lines !! 4%nat = Some "2"
    /\ lines !! 6%nat = Some "hi there".
Proof.
  destruct (proj1 (srt_blocks Demo.record)) as [lines Hlines];
    [repeat constructor|].
  exists lines. split; [exact Hlines|].
  destruct (proj1 (proj2 (srt_blocks Demo.record)) lines Hlines) as (_ & _ & Hblocks).
  destruct (Hblocks 0%nat _ eq_refl) as (? & ? & _ & _ & _ & _ & H2 & _).
  destruct (Hblocks 1%nat _ eq_refl) as (? & ? & _ & _ & H4 & _ & H6 & _).
  split; [exact H2|]. split; [exact H4|exact H6].
Defined.

(** * Statements about the orchestrator *)

(** With an audio artifact of size zero, [process_video] records the
    warning and goes on exactly as [finish_run] on the empty transcript:
    whatever the outcome, the warning is in the trace and whisper was not
    called; whenever the frame sampler and the prober then succeed and the
    two JSON targets are not directories, the run returns [[]],
    [alignment.json] holds [[]] and the sampler was called. *)
Lemma empty_audio_skips_whisper (t : tools) (video out : path) (model : string)
    (fps : float) (language : option string) (w w0 w1 : world) (audio : path) :
  is_Some (lookup_node w video) ->
  mkdir_p out w = (w0, inr tt) ->
  extract_audio t video (Some (child out "audio.wav")) 16000 w0 = (w1, inr audio) ->
  stat_size_is_zero audio w1 = (w1, inr true) ->
  let w2 := logged (Warn (NoAudioContent video)) w1 in
  process_video t video out model fps language w
  = finish_run t video out fps audio [] w2
  /\ (forall w' r,
        process_video t video out model fps language w = (w', r) ->
        grows not_whisper w w' /\ Warn (NoAudioContent video) ∈ trace w')
  /\ (forall w3 paths n vf,
        extract_frames t video (child out "frames") fps w2 = (w3, inr (paths, n)) ->
        get_video_fps t video w3 = (logged (Probe video) w3, inr vf) ->
        lookup_node w3 (child out "alignment.json") <> Some Dir ->
        lookup_node w3 (child out "metadata.json") <> Some Dir ->
        exists w',
          process_video t video out model fps language w = (w', inr [])
          /\ lookup_node w' (child out "alignment.json")
             = Some (File (AlignmentJson []))
          /\ FfmpegFrames video (child out "frames") fps ∈ trace w').
Proof.
  intros Hv H0 H1 Hs w2.
  assert (Hrun : process_video t video out model fps language w
                 = finish_run t video out fps audio [] w2).
  { unfold process_video.
    rewrite bind_exists, bool_decide_true by exact Hv. cbn [negb].
    rewrite (bind_ok _ _ _ _ _ H0), (bind_ok _ _ _ _ _ H1), (bind_ok _ _ _ _ _ Hs).
    reflexivity. }
  pose proof (mkdir_p_inv _ _ _ _ H0) as (He0 & Ht0 & Hd0 & _ & _).
  specialize (Hd0 eq_refl).
  assert (Hv0 : is_Some (lookup_node w0 video)) by (apply He0, Hv).
  pose proof (extract_audio_inv _ _ _ _ _ _ _ Hv0 H1) as (He1 & Hg1 & _ & _).
  assert (Hg2 : grows not_whisper w w2).
  { eapply grows_trans; [|apply grows_logged; reflexivity].
    eapply grows_weaken; [apply audio_event_not_whisper|].
    destruct Hg1 as (evs & E & F). exists evs. rewrite E, Ht0. auto. }
  assert (Hv2 : is_Some (lookup_node w2 video)) by (apply He1, Hv0).
  assert (Hout2 : lookup_node w2 out = Some Dir) by (apply He1, Hd0).
  split; [exact Hrun|]. split.
  - intros w' r Hr. rewrite Hrun in Hr.
    apply finish_run_inv in Hr; [|exact Hv2|exact Hout2].
    destruct Hr as (_ & Hg & _). split.
    + eapply grows_trans; [exact Hg2|].
      eapply grows_weaken; [apply sampler_event_not_whisper|exact Hg].
    + destruct Hg as (evs & -> & _). apply elem_of_app. left.
      apply elem_of_app. right. apply list_elem_of_singleton. reflexivity.
  - intros w3 paths n vf H3 H4 Ha Hm.
    pose proof (extract_frames_inv _ _ _ _ _ _ _ Hv2 H3) as (He3 & _ & _ & Hx).
    destruct (Hx _ eq_refl) as [Ht3 [= Hp Hn]].
    rewrite Hrun.
    rewrite (finish_run_ok t video out fps audio [] w2 w3 paths n vf []
               H3 H4 (align_nil vf fps) (proj2 (He3 out) Hout2) Ha Hm).
    eexists. split; [reflexivity|].
    assert (Hne : child out "metadata.json" <> child out "alignment.json")
      by (intros E; apply child_inj in E; discriminate).
    split.
    { rewrite written_lookup_ne by (apply not_eq_sym, Hne).
      apply written_lookup_eq, child_nonempty. }
    cbn [written logged trace]. rewrite Ht3.
    apply elem_of_app. left. apply elem_of_app. right. apply list_elem_of_singleton.
    reflexivity.
Qed.

(** C5 (defect of the code).  Two runs of [process_video] into an output
    directory that an earlier run has left behind.

    In the first the video has no audio stream and [frames] still holds
    [frame_9999.jpg]: the audio artifact has size zero and the run returns
    [[]], the sampler makes three frames, and [metadata.json] holds
    [frame_count = 4], since [extract_frames] counts every [frame_*.jpg] of
    the directory.

    In the second the video has no audio stream either and [audio.wav] is
    still there with its old bytes: [touch] leaves them, the artifact is not
    empty, whisper is run on it and the record returned is not empty. *)
Theorem stale_outputs_reach_the_record :
  (let t := Demo.the_tools false in
   let run :=
     process_video t Demo.video Demo.out "small" 1 None Demo.stale_frames_world in
   lookup_node Demo.stale_frames_world Demo.video = Some (File (Raw "matroska"))
   /\ snd run = inr []
   /\ stat_size_is_zero (child Demo.out "audio.wav") (fst run) = (fst run, inr true)
   /\ ffmpeg_frames t (File (Raw "matroska")) 1 = Done ["jpeg0"; "jpeg1"; "jpeg2"]
   /\ lookup_node (fst run) (child Demo.out "alignment.json")
      = Some (File (AlignmentJson []))
   /\ lookup_node (fst run) (child Demo.out "metadata.json")
      = Some (File (MetadataJson
                      (RunMetadata.mk Demo.video (child Demo.out "audio.wav")
                         (child Demo.out "frames") 4 30 1))))
  /\ (let t := Demo.the_tools false in
      let run :=
        process_video t Demo.video Demo.out "small" 1 None Demo.stale_audio_world in
      ffprobe t (File (Raw "matroska")) = Done [Demo.video_stream]
      /\ existsb (is_codec "audio") [Demo.video_stream] = false
      /\ trace (fst run)
         = [Probe Demo.video;
            Warn (NoAudioStream Demo.video);
            Whisper (child Demo.out "audio.wav") "small" None;
            FfmpegFrames Demo.video (child Demo.out "frames") 1;
            Probe Demo.video]
      /\ lookup_node (fst run) (child Demo.out "audio.wav")
         = Some (File (Raw "RIFF of an earlier run"))
      /\ snd run = inr [AlignmentEntry.mk "hello" 1.5 2.5 1 2 30]).
Proof.
  split; cbv zeta; repeat split; vm_compute; reflexivity.
Qed.

(** C7 (amended).  [process_video] raises [FileNotFoundError] when the
    video is missing, and then before anything else: the world is
    unchanged.  When it raises it although the video is there, a call of
    ffprobe, ffmpeg or whisper raised it itself (the executable is not
    installed), which no wrapper catches; with tools that never do, it is
    raised exactly when the video is missing.  [alignment_to_srt] raises it
    exactly when the alignment file is missing, and then before anything
    else.  When the input exists and no regular file is in the way, the
    output directory of [process_video], and the parent of the output file
    of [alignment_to_srt] once the alignment document is loaded, are
    directories afterwards, whether they existed or not. *)
Theorem not_found_video_or_tool :
  forall (t : tools) (video out : path) (model : string) (fps : float)
         (language : option string) (json srt : path) (w : world),
    (lookup_node w video = None ->
     process_video t video out model fps language w = (w, inl FileNotFoundError))
    /\ (forall w' r,
          process_video t video out model fps language w = (w', r) ->
          raised r = Some FileNotFoundError ->
          lookup_node w video = None \/ tool_not_found t model language fps)
    /\ (~ tool_not_found t model language fps ->
        forall w' r,
          process_video t video out model fps language w = (w', r) ->
          (raised r = Some FileNotFoundError <-> lookup_node w video = None))
    /\ (is_Some (lookup_node w video) -> no_file_above w out ->
        forall w' r,
          process_video t video out model fps language w = (w', r) ->
          lookup_node w' out = Some Dir)
    /\ (lookup_node w json = None ->
        alignment_to_srt json srt w = (w, inl FileNotFoundError))
    /\ (forall w' r,
          alignment_to_srt json srt w = (w', r) ->
          raised r = Some FileNotFoundError -> lookup_node w json = None)
    /\ (forall record,
          lookup_node w json = Some (File (AlignmentJson record)) ->
          no_file_above w (parent srt) ->
          forall w' r,
            alignment_to_srt json srt w = (w', r) ->
            lookup_node w' (parent srt) = Some Dir).
Proof.
  intros t video out model fps language json srt w.
  assert (Hmiss : lookup_node w video = None ->
                  process_video t video out model fps language w
                  = (w, inl FileNotFoundError)).
  { intros Hn. unfold process_video. rewrite bind_exists, bool_decide_false; [reflexivity|].
    rewrite Hn. intros [? [=]]. }
  assert (Hsrc : forall w' r,
             process_video t video out model fps language w = (w', r) ->
             raised r = Some FileNotFoundError ->
             lookup_node w video = None \/ tool_not_found t model language fps).
  { intros w' r H Hr. destruct (lookup_node w video) as [n|] eqn:Hv; [right|left; reflexivity].
    apply process_video_inv in H; [|rewrite Hv; eauto].
    destruct H as (_ & _ & Hf & _). exact (Hf Hr). }
  split; [exact Hmiss|]. split; [exact Hsrc|].
  split; [|split; [|split; [|split]]].
  - intros Hno w' r H. split.
    + intros Hr. destruct (Hsrc _ _ H Hr) as [Hn | Ht]; [exact Hn|destruct (Hno Ht)].
    + intros Hn. rewrite (Hmiss Hn) in H. injection H as _ <-. reflexivity.
  - intros Hv Hno w' r H.
    destruct (mkdir_p out w) as [w0 r0] eqn:H0.
    pose proof (mkdir_p_inv _ _ _ _ H0) as (_ & _ & _ & _ & Hok).
    rewrite (Hok Hno) in H0.
    apply process_video_inv in H; [|exact Hv]. destruct H as (_ & _ & _ & Hd & _).
    eapply Hd, H0.
  - intros Hn. unfold alignment_to_srt. rewrite bind_exists, bool_decide_false; [reflexivity|].
    rewrite Hn. intros [? [=]].
  - intros w' r H Hr. destruct (lookup_node w json) as [n|] eqn:Hj; [|reflexivity].
    apply alignment_to_srt_inv in H; [|rewrite Hj; eauto].
    destruct H as (_ & _ & Hf & _). contradiction.
  - intros record Hl Hno w' r H.
    apply alignment_to_srt_inv in H; [|rewrite Hl; eauto].
    destruct H as (_ & _ & _ & Hd & _). eapply Hd; eauto.
Qed.

(** C7, as stated, fails: the video is there, ffprobe is not installed, and
    [process_video] raises [FileNotFoundError]. *)
Lemma not_found_with_video_present :
  lookup_node Demo.the_world Demo.video = Some (File (Raw "matroska"))
  /\ snd (process_video Demo.no_ffprobe Demo.video Demo.out "small" 1 None
            Demo.the_world)
     = inl FileNotFoundError.
Proof. split; reflexivity. Qed.

(** C10.  In every run of [process_video], successful or not, each call of
    the frame sampler the run makes is the one on the video, into
    [frames], at rate [fps].  In every successful run that call is made,
    [metadata.json] holds [extraction_fps = fps], and every entry written
    to [alignment.json] is the one [align_frames_to_transcript] computes
    from the entry's own text and times at [extraction_fps = fps]. *)
Theorem fps_used_consistently :
  forall (t : tools) (video out : path) (model : string) (fps : float)
         (language : option string) (w : world),
    (forall w' r,
        process_video t video out model fps language w = (w', r) ->
        exists evs,
          trace w' = trace w ++ evs
          /\ forall v d f,
              FfmpegFrames v d f ∈ evs ->
              v = video /\ d = child out "frames" /\ f = fps)
    /\ (forall w' alignment,
          process_video t video out model fps language w = (w', inr alignment) ->
          FfmpegFrames video (child out "frames") fps ∈ trace w'
          /\ exists metadata,
              lookup_node w' (child out "metadata.json")
              = Some (File (MetadataJson metadata))
              /\ RunMetadata.extraction_fps metadata = fps
              /\ lookup_node w' (child out "alignment.json")
                 = Some (File (AlignmentJson alignment))
              /\ Forall (fun entry =>
                           align_segment (RunMetadata.video_fps metadata) fps
                             (segment_of entry) = inr entry)
                        alignment).
Proof.
  intros t video out model fps language w. split.
  - intros w' r H.
    destruct (lookup_node w video) as [n|] eqn:Hv.
    + apply process_video_inv in H; [|rewrite Hv; eauto].
      destruct H as (_ & (evs & E & F) & _). exists evs. split; [exact E|].
      intros v d f Hin. rewrite Forall_forall in F.
      specialize (F _ Hin eq_refl). injection F as -> -> ->. auto.
    + unfold process_video in H. rewrite bind_exists, bool_decide_false in H
        by (rewrite Hv; intros [? [=]]).
      injection H as <- _. exists []. rewrite app_nil_r. split; [reflexivity|].
      intros v d f Hin. inversion Hin.
  - intros w' alignment H.
    assert (Hv : is_Some (lookup_node w video)).
    { unfold process_video in H. rewrite bind_exists in H.
      destruct (bool_decide_reflect (is_Some (lookup_node w video))) as [Hv|Hn];
        [exact Hv|discriminate]. }
    apply process_video_inv in H; [|exact Hv]. destruct H as (_ & _ & _ & _ & H).
    destruct (H _ eq_refl)
      as (w0 & w1 & audio & empty & w2 & segs & _ & _ & _ & _ & _ & _ & Hout & Hv2 & Hf).
    apply finish_run_inv in Hf; [|exact Hv2|exact Hout].
    destruct Hf as (_ & _ & _ & Hf).
    destruct (Hf _ eq_refl) as (w3 & n & vf & _ & _ & Ht3 & _ & Hal & ->).
    assert (Hne : child out "metadata.json" <> child out "alignment.json")
      by (intros E; apply child_inj in E; discriminate).
    split.
    + cbn [written logged trace]. rewrite Ht3.
      apply elem_of_app. left. apply elem_of_app. right.
      apply list_elem_of_singleton. reflexivity.
    + eexists. split; [apply written_lookup_eq, child_nonempty|].
      split; [reflexivity|]. split; [|eapply align_entries_recomputed, Hal].
      rewrite written_lookup_ne by (apply not_eq_sym, Hne).
      apply written_lookup_eq, child_nonempty.
Qed.

Lemma not_found_video_or_tool_witness :
  process_video (Demo.the_tools true) ["missing.mp4"] Demo.out "small" 1 None
    Demo.the_world = (Demo.the_world, inl FileNotFoundError)
  /\ (lookup_node Demo.the_world Demo.video = None
      \/ tool_not_found Demo.no_ffprobe "small" None 1)
  /\ lookup_node Demo.the_world Demo.out = None
  /\ lookup_node
       (fst (process_video (Demo.the_tools true) Demo.video Demo.out "small" 1 None
               Demo.the_world)) Demo.out = Some Dir.
Proof.
  pose proof (not_found_video_or_tool (Demo.the_tools true) ["missing.mp4"]
                Demo.out "small" 1%float None [] [] Demo.the_world) as (Hmiss & _).
  pose proof (not_found_video_or_tool Demo.no_ffprobe Demo.video
                Demo.out "small" 1%float None [] [] Demo.the_world)
    as (_ & Hsrc & _).
  pose proof (not_found_video_or_tool (Demo.the_tools true) Demo.video
                Demo.out "small" 1%float None [] [] Demo.the_world)
    as (_ & _ & _ & Hdir & _).
  split; [apply Hmiss; reflexivity|].
  split; [eapply Hsrc; [apply surjective_pairing|reflexivity]|].
  split; [reflexivity|].
  eapply Hdir.
  - eexists; reflexivity.
  - intros q c Hq. apply list_elem_of_singleton in Hq. subst q. discriminate.
  - apply surjective_pairing.
Defined.

Lemma fps_used_consistently_witness :
  exists metadata,
    lookup_node
      (fst (process_video (Demo.the_tools true) Demo.video Demo.out "small" 2 None
              Demo.the_world))
      (child Demo.out "metadata.json") = Some (File (MetadataJson metadata))
    /\ RunMetadata.extraction_fps metadata = 2%float.
Proof.
  destruct (proj2 (fps_used_consistently (Demo.the_tools true) Demo.video Demo.out
                     "small" 2%float None Demo.the_world)
              (fst (process_video (Demo.the_tools true) Demo.video Demo.out "small" 2
                      None Demo.the_world))
              [AlignmentEntry.mk "hello" 1.5 2.5 3 5 30])
    as (_ & metadata & Hmd & Hfps & _); [reflexivity|].
  exists metadata. split; assumption.
Defined.

